(** * The signup wizard of [script.js]

    A shallow embedding of the signup part of [src/script.js] (sections 1, 2
    and 4 of the file): the mock user list [registeredUsers], the duplicate
    check [isEmailAlreadyRegistered], [showMessage], the step navigation
    [navigateSignupStep] and the three event handlers wired to the signup
    form (next-step buttons, previous-step buttons, form submission).

    The script is a set of event handlers over module-level variables and
    the DOM.  A [Page] gathers what they read and write; a handler is a
    computation in a state-and-exception monad [Js], because a handler that
    dereferences [undefined] or [null] stops with a [TypeError] and keeps
    the mutations done so far. *)

From Stdlib Require Import ZArith Ascii String.
From stdpp Require Import gmap strings list fin_maps.

Local Open Scope string_scope.
Local Open Scope list_scope.
Local Open Scope Z_scope.

(** ** Strings

    [String.prototype.toLowerCase] is a built-in of the language and works
    on all of Unicode.  The development is parametric in it (Section
    [Signup] below).  On strings of ASCII characters it is the following
    function, which the closed examples use. *)

Definition ascii_toLowerCase (c : ascii) : ascii :=
  let n := nat_of_ascii c in
  if ((65 <=? n)%nat && (n <=? 90)%nat)%bool then ascii_of_nat (n + 32) else c.

Fixpoint string_toLowerCase (s : string) : string :=
  match s with
  | EmptyString => EmptyString
  | String c r => String (ascii_toLowerCase c) (string_toLowerCase r)
  end.

(** ** Data *)

(** An entry of [registeredUsers] (lines 5-8, 176-180). *)
Record User := mkUser {
  email : string;
  username : string;
  password : string
}.

(** An [<input>] of the signup form.  [required] is the attribute selected
    by ['input[required]']; [formStep] is the position in [signupSteps] of
    the [.form-step] the input descends from, if any; [defaultValue] is
    what [form.reset()] restores; [border] is [style.border]. *)
Record Input := mkInput {
  value : string;
  defaultValue : string;
  required : bool;
  formStep : option nat;
  border : string
}.

(** An element of [signupSteps]: only its ['active-step'] class matters. *)
Record FormStep := mkFormStep {
  active_step : bool
}.

(** What a handler does to the world outside the page state.
    [DirectoryQuery] records a call of [isEmailAlreadyRegistered]. *)
Inductive Effect :=
| Alert (message : string)
| ShowMessage (formId message : string) (isError : bool)
| ConsoleLog (label : string) (users : list User)
| DirectoryQuery (queried : string).

(** The state the signup handlers share.  [elements] holds the inputs of
    the signup form, keyed by their [id]. *)
Record Page := mkPage {
  registeredUsers : list User;
  currentSignupStep : Z;
  signupSteps : list FormStep;
  elements : gmap string Input;
  effects : list Effect
}.

#[global] Instance User_eq_dec : EqDecision User.
Proof. solve_decision. Defined.

(** Lines 5-8. *)
Definition seedUsers : list User :=
  [ mkUser "user@example.com" "demo" "password123";
    mkUser "test@mail.com" "tester" "securepass" ].

(** The page as the script leaves it once loaded (lines 5-8, 105-108): the
    markup, which is not part of the script, gives the steps and inputs. *)
Definition initialPage (steps : list FormStep) (els : gmap string Input) : Page :=
  mkPage seedUsers 0 steps els [].

(** A signup form as the handlers expect it: email and username, required,
    on step 0; password and confirmation, required, on step 1. *)
Definition signupInputs (e u p c : string) : gmap string Input :=
  <["reg-email" := mkInput e "" true (Some 0%nat) ""]>
  (<["reg-username" := mkInput u "" true (Some 0%nat) ""]>
  (<["reg-password" := mkInput p "" true (Some 1%nat) ""]>
  (<["reg-confirm-password" := mkInput c "" true (Some 1%nat) ""]> ∅))).

Definition twoSteps : list FormStep := [mkFormStep true; mkFormStep false].

(** The loaded page with that form, nothing typed yet. *)
Definition loadedPage : Page := initialPage twoSteps (signupInputs "" "" "" "").

(** That form on its second step, with the given directory and texts. *)
Definition pageOnStep1 (users : list User) (e u p c : string) : Page :=
  mkPage users 1 [mkFormStep false; mkFormStep true] (signupInputs e u p c) [].

(** ** The handler monad *)

Inductive Completion (A : Type) :=
| Normal (a : A)
| TypeError.
Arguments Normal {A} a.
Arguments TypeError {A}.

Definition Js (A : Type) : Type := Page → Completion A * Page.

(** The value of a call, as far as the statements speak of it: a function
    that ends without a [return] statement yields [undefined]. *)
Inductive JsValue :=
| JsUndefined
| JsBoolean (b : bool).

Definition ret {A} (a : A) : Js A := λ s, (Normal a, s).

Definition bind {A B} (c : Js A) (k : A → Js B) : Js B :=
  λ s, match c s with
       | (Normal a, s') => k a s'
       | (TypeError, s') => (TypeError, s')
       end.

Notation "'let!' x ':=' c 'in' k" := (bind c (λ x, k))
  (at level 10, x name, c at level 100, k at level 200).
Notation "c ';;;' k" := (bind c (λ _, k))
  (at level 100, k at level 200, right associativity).

Definition gets {A} (f : Page → A) : Js A := λ s, (Normal (f s), s).
Definition modify (f : Page → Page) : Js unit := λ s, (Normal tt, f s).

Definition set_registeredUsers (us : list User) (s : Page) : Page :=
  mkPage us (currentSignupStep s) (signupSteps s) (elements s) (effects s).
Definition set_currentSignupStep (i : Z) (s : Page) : Page :=
  mkPage (registeredUsers s) i (signupSteps s) (elements s) (effects s).
Definition set_signupSteps (st : list FormStep) (s : Page) : Page :=
  mkPage (registeredUsers s) (currentSignupStep s) st (elements s) (effects s).
Definition set_elements (els : gmap string Input) (s : Page) : Page :=
  mkPage (registeredUsers s) (currentSignupStep s) (signupSteps s) els (effects s).
Definition emit (e : Effect) (s : Page) : Page :=
  mkPage (registeredUsers s) (currentSignupStep s) (signupSteps s) (elements s)
         (effects s ++ [e]).

Definition set_value (v : string) (i : Input) : Input :=
  mkInput v (defaultValue i) (required i) (formStep i) (border i).
Definition set_border (b : string) (i : Input) : Input :=
  mkInput (value i) (defaultValue i) (required i) (formStep i) b.
Definition reset_input (i : Input) : Input :=
  set_value (defaultValue i) i.

(** ** DOM access *)

(** [arr[i]] for a number [i]: [undefined] outside the array. *)
Definition array_get {A} (l : list A) (i : Z) : option A :=
  if bool_decide (0 ≤ i) then l !! Z.to_nat i else None.

(** [document.getElementById(id).value]: the element may be [null]. *)
Definition valueOf (id : string) : Js string :=
  λ s, match elements s !! id with
       | Some i => (Normal (value i), s)
       | None => (TypeError, s)
       end.

(** [document.getElementById(id).style.border = b]. *)
Definition setBorder (id b : string) : Js unit :=
  λ s, match elements s !! id with
       | Some i => (Normal tt, set_elements (<[id := set_border b i]> (elements s)) s)
       | None => (TypeError, s)
       end.

(** [signupSteps[i].classList.add('active-step')] ([on = true]) and
    [.remove('active-step')] ([on = false]). *)
Definition setActiveStepClass (i : Z) (on : bool) : Js unit :=
  λ s, match array_get (signupSteps s) i with
       | Some _ =>
           (Normal tt,
            set_signupSteps (<[Z.to_nat i := mkFormStep on]> (signupSteps s)) s)
       | None => (TypeError, s)
       end.

(** [form.reset()] on the signup form. *)
Definition formReset : Js unit :=
  modify (λ s, set_elements (reset_input <$> elements s) s).

(** [alert(message)]. *)
Definition alert (message : string) : Js unit := modify (emit (Alert message)).

(** [showMessage] (lines 22-45).  The page holds one form, the signup
    form: for any other [formId] the lookup on line 23 finds nothing here
    and line 24 returns.  The message element and its removal after seven
    seconds are display only; the call is recorded as an effect. *)
Definition showMessage (formId message : string) (isError : bool) : Js unit :=
  if String.eqb formId "signupForm" then
    modify (emit (ShowMessage formId message isError)) ;;;
    if negb isError then formReset else ret tt
  else ret tt.

(** ** The appointment form (section 5 of the script)

    A second wizard, with its own counter [currentAppointmentStep], its own
    steps (their class is ['active']) and its own inputs.  Its handlers
    run in the same kind of monad, over the state they share. *)

Record Booking := mkBooking {
  currentAppointmentStep : Z;
  appointmentSteps : list FormStep;
  appointmentInputs : gmap string Input;
  appointmentEffects : list Effect
}.

Definition Handler (S A : Type) : Type := S → Completion A * S.

#[global] Instance Handler_ret {S} : MRet (Handler S) :=
  λ A a s, (Normal a, s).

#[global] Instance Handler_bind {S} : MBind (Handler S) :=
  λ A B k c s,
    match c s with
    | (Normal a, s') => k a s'
    | (TypeError, s') => (TypeError, s')
    end.

Definition hgets {S A} (f : S → A) : Handler S A := λ s, (Normal (f s), s).
Definition hmodify {S} (f : S → S) : Handler S unit := λ s, (Normal tt, f s).

Definition set_currentAppointmentStep (i : Z) (b : Booking) : Booking :=
  mkBooking i (appointmentSteps b) (appointmentInputs b) (appointmentEffects b).
Definition set_appointmentSteps (st : list FormStep) (b : Booking) : Booking :=
  mkBooking (currentAppointmentStep b) st (appointmentInputs b)
            (appointmentEffects b).
Definition set_appointmentInputs (els : gmap string Input) (b : Booking) : Booking :=
  mkBooking (currentAppointmentStep b) (appointmentSteps b) els
            (appointmentEffects b).
Definition emitAppointment (e : Effect) (b : Booking) : Booking :=
  mkBooking (currentAppointmentStep b) (appointmentSteps b) (appointmentInputs b)
            (appointmentEffects b ++ [e]).

(** [appointmentSteps[i].classList.add('active')] ([on = true]) and
    [.remove('active')] ([on = false]). *)
Definition setAppointmentStepClass (i : Z) (on : bool) : Handler Booking unit :=
  λ b, match array_get (appointmentSteps b) i with
       | Some _ =>
           (Normal tt,
            set_appointmentSteps
              (<[Z.to_nat i := mkFormStep on]> (appointmentSteps b)) b)
       | None => (TypeError, b)
       end.

(** [appointmentSteps[i].querySelectorAll('input[required]')], as ids. *)
Definition appointmentRequiredInputs (i : Z) : Handler Booking (list string) :=
  λ b, match array_get (appointmentSteps b) i with
       | Some _ =>
           (Normal
              (map fst
                 (filter (λ p, required p.2 = true ∧ formStep p.2 = Some (Z.to_nat i))
                         (map_to_list (appointmentInputs b)))),
            b)
       | None => (TypeError, b)
       end.

(** The body of the [forEach] on lines 215-222 and again on lines 250-257. *)
Definition checkAppointmentInput (allValid : bool) (input : string)
  : Handler Booking bool :=
  λ b, match appointmentInputs b !! input with
       | Some i =>
           if required i && String.eqb (value i) "" then
             (Normal false,
              set_appointmentInputs
                (<[input := set_border "2px solid red" i]> (appointmentInputs b)) b)
           else
             (Normal allValid,
              set_appointmentInputs
                (<[input := set_border "1px solid #ced4da" i]> (appointmentInputs b)) b)
       | None => (TypeError, b)
       end.

Fixpoint forEachAppointmentInput (inputs : list string) (allValid : bool)
  : Handler Booking bool :=
  match inputs with
  | [] => mret allValid
  | input :: rest =>
      allValid' ← checkAppointmentInput allValid input;
      forEachAppointmentInput rest allValid'
  end.

(** [showMessage] (lines 22-45) called for the appointment form: the only
    form this state holds. *)
Definition showAppointmentMessage (formId message : string) (isError : bool)
  : Handler Booking unit :=
  if String.eqb formId "appointmentForm" then
    hmodify (emitAppointment (ShowMessage formId message isError)) ;;
    if negb isError
    then hmodify (λ b, set_appointmentInputs (reset_input <$> appointmentInputs b) b)
    else mret tt
  else mret tt.

(** Lines 230-234. *)
Definition moveAppointmentStep (nextStep : Z) : Handler Booking unit :=
  n ← hgets (λ b, Z.of_nat (length (appointmentSteps b)));
  if (0 <=? nextStep) && (nextStep <? n) then
    cur ← hgets currentAppointmentStep;
    setAppointmentStepClass cur false ;;
    hmodify (set_currentAppointmentStep nextStep) ;;
    cur ← hgets currentAppointmentStep;
    setAppointmentStepClass cur true
  else mret tt.

(** Lines 207-235.  The [return] on line 226 skips lines 230-234, which
    therefore appear in both remaining branches. *)
Definition navigateAppointmentStep (direction : Z) : Handler Booking unit :=
  cur ← hgets currentAppointmentStep;
  let nextStep := cur + direction in
  if direction =? 1 then
    inputs ← appointmentRequiredInputs cur;
    allValid ← forEachAppointmentInput inputs true;
    if negb allValid then
      hmodify (emitAppointment
                 (Alert "Please fill in the required field before proceeding."))
    else moveAppointmentStep nextStep
  else moveAppointmentStep nextStep.

(** The submit handler of the appointment form (lines 245-268). *)
Definition appointmentForm_submit : Handler Booking unit :=
  cur ← hgets currentAppointmentStep;
  lastStepInputs ← appointmentRequiredInputs cur;
  allValid ← forEachAppointmentInput lastStepInputs true;
  if (allValid : bool) then
    showAppointmentMessage "appointmentForm"
      "Booking Confirmed! A representative will contact you shortly." false ;;
    cur ← hgets currentAppointmentStep;
    setAppointmentStepClass cur false ;;
    hmodify (set_currentAppointmentStep 0) ;;
    cur ← hgets currentAppointmentStep;
    setAppointmentStepClass cur true
  else
    hmodify (emitAppointment
               (Alert "Please fill in the required field before submitting.")).

(** What can happen to the appointment form (lines 237-245). *)
Inductive BookingEvent :=
| BookingInput (id text : string)
| BookingNext
| BookingPrev
| BookingSubmit.

Definition handleBooking (e : BookingEvent) (b : Booking) : Booking :=
  match e with
  | BookingInput id text =>
      set_appointmentInputs (alter (set_value text) id (appointmentInputs b)) b
  | BookingNext => (navigateAppointmentStep 1 b).2
  | BookingPrev => (navigateAppointmentStep (-1) b).2
  | BookingSubmit => (appointmentForm_submit b).2
  end.

Definition runBooking (es : list BookingEvent) (b : Booking) : Booking :=
  foldl (λ b e, handleBooking e b) b es.

(** [0 <= currentAppointmentStep < appointmentSteps.length]. *)
Definition bookingInBounds (b : Booking) : Prop :=
  0 ≤ currentAppointmentStep b < Z.of_nat (length (appointmentSteps b)).

(** Some required input of the current appointment step is empty. *)
Definition anyAppointmentInputEmpty (b : Booking) : bool :=
  existsb
    (λ p, bool_decide (required p.2 = true ∧
                       formStep p.2 = Some (Z.to_nat (currentAppointmentStep b))) &&
          String.eqb (value p.2) "")
    (map_to_list (appointmentInputs b)).

(** The border the validation pass gives the required inputs of step [cur]. *)
Definition markAppointmentStep (cur : Z) (i : Input) : Input :=
  if bool_decide (required i = true ∧ formStep i = Some (Z.to_nat cur))
  then set_border (if String.eqb (value i) "" then "2px solid red"
                   else "1px solid #ced4da") i
  else i.

(** The booking [moveAppointmentStep] leaves when the test on line 230
    passes. *)
Definition bookingMovedTo (nextStep : Z) (b : Booking) : Booking :=
  mkBooking nextStep
    (<[Z.to_nat nextStep := mkFormStep true]>
       (<[Z.to_nat (currentAppointmentStep b) := mkFormStep false]>
          (appointmentSteps b)))
    (appointmentInputs b) (appointmentEffects b).

(** The border lines 216-221 give an input. *)
Definition appointmentFeedback (i : Input) : Input :=
  set_border (if required i && String.eqb (value i) "" then "2px solid red"
              else "1px solid #ced4da") i.

(** The input [id] passes the test of line 216: it is not both required
    and empty. *)
Definition passes (els : gmap string Input) (id : string) : bool :=
  match els !! id with
  | Some i => negb (required i && String.eqb (value i) "")
  | None => true
  end.

(** An appointment form of three steps, one required input on each of the
    first two and an optional one on the last. *)
Definition appointmentFields (service date note : string) : gmap string Input :=
  <["service" := mkInput service "" true (Some 0%nat) ""]>
  (<["date" := mkInput date "" true (Some 1%nat) ""]>
  (<["note" := mkInput note "" false (Some 2%nat) ""]> ∅)).

Definition bookingOnStep (cur : Z) (service date note : string) : Booking :=
  mkBooking cur
    [mkFormStep (cur =? 0); mkFormStep (cur =? 1); mkFormStep (cur =? 2)]
    (appointmentFields service date note) [].

(** ** The two intersection observers (section 3 of the script)

    The numbers of an entry ([intersectionRatio], [boundingClientRect.top])
    and [window.innerHeight / 2] are floating-point numbers; the callbacks
    only compare them, and the model is parametric in their type and in
    the two comparisons. *)

Section Observers.

Variable Num : Type.
Variable gt : Num → Num → bool.
Variable lt : Num → Num → bool.

(** An [IntersectionObserverEntry]: [target] names the observed element,
    [targetId] is [entry.target.id]. *)
Record Entry := mkEntry {
  isIntersecting : bool;
  target : nat;
  targetId : string;
  intersectionRatio : Num;
  boundingTop : Num
}.

(** The callback of [scrollObserver] (lines 55-61), on the set of elements
    that carry the ['animate'] class. *)
Definition scrollObserverCallback (entries : list Entry) (animated : gset nat)
  : gset nat :=
  foldl (λ animated entry,
           if isIntersecting entry then {[target entry]} ∪ animated
           else animated)
        animated entries.

(** [!activeId] is false for a non-empty string only. *)
Definition falsy (activeId : option string) : bool :=
  match activeId with
  | Some (String _ _) => false
  | _ => true
  end.

(** [entries.find(e => e.target.id === activeId)?.intersectionRatio]. *)
Definition ratioOfActive (entries : list Entry) (activeId : option string)
  : option Num :=
  match activeId with
  | Some a =>
      intersectionRatio <$> List.find (λ e, String.eqb (targetId e) a) entries
  | None => None
  end.

(** One round of the [forEach] on lines 68-74; a comparison with
    [undefined] is false. *)
Definition considerEntry (halfHeight : Num) (entries : list Entry)
    (activeId : option string) (entry : Entry) : option string :=
  if isIntersecting entry then
    if falsy activeId
       || match ratioOfActive entries activeId with
          | Some r => gt (intersectionRatio entry) r
          | None => false
          end
       || lt (boundingTop entry) halfHeight
    then Some (targetId entry)
    else activeId
  else activeId.

(** Lines 67-74: the [activeId] the callback of [navObserver] settles on. *)
Definition pickActiveId (halfHeight : Num) (entries : list Entry)
  : option string :=
  foldl (considerEntry halfHeight entries) None entries.

End Observers.

Arguments mkEntry {Num}.
Arguments isIntersecting {Num}.
Arguments target {Num}.
Arguments targetId {Num}.
Arguments intersectionRatio {Num}.
Arguments boundingTop {Num}.
Arguments scrollObserverCallback {Num}.
Arguments ratioOfActive {Num}.
Arguments considerEntry {Num}.
Arguments pickActiveId {Num}.

(** A [.nav-link]: its [href] attribute, if it has one, and whether it
    carries the ['active'] class. *)
Record NavLink := mkNavLink {
  href : option string;
  linkActive : bool
}.

(** [String.prototype.substring] is a built-in of the language and counts
    in UTF-16 code units.  The loop over the links is parametric in
    [s.substring(1)] (Section [NavLinks] below).  On strings of ASCII
    characters it is the following function, which the closed examples
    use. *)
Definition ascii_substring1 (s : string) : string :=
  match s with
  | EmptyString => EmptyString
  | String _ rest => rest
  end.

Section NavLinks.

Variable substring1 : string → string.

(** Lines 76-81: the [forEach] over the links.  [getAttribute('href')] is
    [null] on a link without the attribute, and [.substring] on it stops
    the loop after the ['active'] class of that link was removed. *)
Fixpoint highlightLinks (activeId : option string) (links : list NavLink)
  : Completion unit * list NavLink :=
  match links with
  | [] => (Normal tt, [])
  | link :: rest =>
      match href link with
      | None => (TypeError, mkNavLink None false :: rest)
      | Some h =>
          let on := match activeId with
                    | Some a => String.eqb (substring1 h) a
                    | None => false
                    end in
          let r := highlightLinks activeId rest in
          (r.1, mkNavLink (Some h) on :: r.2)
      end
  end.

(** The callback of [navObserver] (lines 66-82). *)
Definition navObserverCallback {Num} (gt lt : Num → Num → bool)
    (halfHeight : Num) (entries : list (Entry Num)) (links : list NavLink)
  : Completion unit * list NavLink :=
  highlightLinks (pickActiveId gt lt halfHeight entries) links.

End NavLinks.

Section Signup.

Variable toLowerCase : string → string.

(** Lines 15-18, as a function of the array it reads. *)
Definition isEmailAlreadyRegistered (users : list User) (e : string) : bool :=
  existsb (λ user, String.eqb (toLowerCase (email user)) (toLowerCase e)) users.

(** A call of [isEmailAlreadyRegistered] from a handler. *)
Definition callIsEmailAlreadyRegistered (e : string) : Js bool :=
  modify (emit (DirectoryQuery e)) ;;;
  gets (λ s, isEmailAlreadyRegistered (registeredUsers s) e).

(** Lines 110-117.  The function has no [return] statement: whether the
    test on line 112 passes or not, a call yields [undefined]. *)
Definition navigateSignupStep (direction : Z) : Js JsValue :=
  let! cur := gets currentSignupStep in
  let! n := gets (λ s, Z.of_nat (length (signupSteps s))) in
  let nextStep := cur + direction in
  if (0 <=? nextStep) && (nextStep <? n) then
    setActiveStepClass cur false ;;;
    modify (set_currentSignupStep nextStep) ;;;
    let! cur := gets currentSignupStep in
    setActiveStepClass cur true ;;;
    ret JsUndefined
  else ret JsUndefined.

(** [signupSteps[i].querySelectorAll('input[required]')]: the required
    inputs below step [i], as references (ids) into [elements].
    [signupSteps[i]] may be [undefined].  The inputs come in the order of
    their ids, not of the document; the loop over them treats each input
    on its own. *)
Definition querySelectorAllRequired (i : Z) : Js (list string) :=
  λ s, match array_get (signupSteps s) i with
       | Some _ =>
           (Normal
              (map fst
                 (filter (λ p, required p.2 = true ∧ formStep p.2 = Some (Z.to_nat i))
                         (map_to_list (elements s)))),
            s)
       | None => (TypeError, s)
       end.

(** The body of the [forEach] on lines 125-132, with the captured variable
    [allValid] passed along. *)
Definition checkInput (allValid : bool) (input : string) : Js bool :=
  let! v := valueOf input in
  if String.eqb v "" then
    setBorder input "2px solid red" ;;; ret false
  else
    setBorder input "1px solid #ced4da" ;;; ret allValid.

Fixpoint forEachInput (inputs : list string) (allValid : bool) : Js bool :=
  match inputs with
  | [] => ret allValid
  | input :: rest =>
      let! allValid' := checkInput allValid input in
      forEachInput rest allValid'
  end.

(** What a click on a next-step button came to: the script reports it to
    the user by [alert] (line 145), by [showMessage] (line 139) or by
    calling [navigateSignupStep(1)] (line 143). *)
Inductive BlockReason := missing_fields | duplicate_email.
Inductive AdvanceOutcome :=
| Blocked (reason : BlockReason)
| Advanced.

(** Lines 134-146 of the next-step handler: what it does once [allValid]
    is known.  The [return] on line 140 skips the call on line 143, which
    therefore appears in both remaining branches. *)
Definition afterValidation (allValid : bool) : Js AdvanceOutcome :=
  if allValid then
    let! cur := gets currentSignupStep in
    if cur =? 0 then
      let! regEmail := valueOf "reg-email" in
      let! duplicate := callIsEmailAlreadyRegistered regEmail in
      if duplicate then
        showMessage "signupForm"
          "Error: An account with this email already exists. Please login." true ;;;
        ret (Blocked duplicate_email)
      else
        navigateSignupStep 1 ;;;
        ret Advanced
    else
      navigateSignupStep 1 ;;;
      ret Advanced
  else
    alert "Please fill in all required fields." ;;;
    ret (Blocked missing_fields).

(** The click handler of the next-step buttons (lines 120-147). *)
Definition nextStepBtn_click : Js AdvanceOutcome :=
  let! cur := gets currentSignupStep in
  let! inputs := querySelectorAllRequired cur in
  let! allValid := forEachInput inputs true in
  afterValidation allValid.

(** The click handler of the previous-step buttons (line 150): an arrow
    function whose value is that of the call. *)
Definition prevStepBtn_click : Js JsValue := navigateSignupStep (-1).

(** What a submission came to: the two error messages (lines 164, 171) or
    the registration (lines 176-192). *)
Inductive SubmitOutcome :=
| PasswordMismatch
| DuplicateEmail
| Success (identity : User).

(** Lines 175-192 of the submit handler: the new user is pushed, the form
    is cleared and the wizard is put back on its first step. *)
Definition completeRegistration (identity : User) : Js SubmitOutcome :=
  modify (λ s, set_registeredUsers (registeredUsers s ++ [identity]) s) ;;;
  let! users := gets registeredUsers in
  modify (emit (ConsoleLog "Registered Users:" users)) ;;;
  showMessage "signupForm"
    "Account Registration Complete! Please log in above." false ;;;
  formReset ;;;
  setBorder "reg-password" "1px solid #ced4da" ;;;
  setBorder "reg-confirm-password" "1px solid #ced4da" ;;;
  let! cur := gets currentSignupStep in
  setActiveStepClass cur false ;;;
  modify (set_currentSignupStep 0) ;;;
  let! cur := gets currentSignupStep in
  setActiveStepClass cur true ;;;
  ret (Success identity).

(** The submit handler of the signup form (lines 152-199).  The switch
    back to the login form half a second later (lines 194-198) touches
    nothing of the page state and is left out. *)
Definition signupForm_submit : Js SubmitOutcome :=
  let passwordInput := "reg-password" in
  let confirmPasswordInput := "reg-confirm-password" in
  let emailInput := "reg-email" in
  let usernameInput := "reg-username" in
  let! password := valueOf passwordInput in
  let! confirmPassword := valueOf confirmPasswordInput in
  if negb (String.eqb password confirmPassword) then
    showMessage "signupForm" "Error: Passwords do not match." true ;;;
    setBorder confirmPasswordInput "2px solid red" ;;;
    ret PasswordMismatch
  else
    let! e := valueOf emailInput in
    let! duplicate := callIsEmailAlreadyRegistered e in
    if duplicate then
      showMessage "signupForm"
        "Error: An account with this email already exists. Please login." true ;;;
      ret DuplicateEmail
    else
      let! e := valueOf emailInput in
      let! u := valueOf usernameInput in
      completeRegistration (mkUser e u password).

(** ** The page as a state machine *)

(** What can happen to the signup form: the user edits an input, or one of
    the three handlers runs. *)
Inductive Event :=
| UserInput (id text : string)
| NextClick
| PrevClick
| Submit.

Definition userInput (id text : string) (s : Page) : Page :=
  set_elements (alter (set_value text) id (elements s)) s.

(** The page after an event; a handler stopped by a [TypeError] leaves the
    page as it was when it stopped. *)
Definition handle (e : Event) (s : Page) : Page :=
  match e with
  | UserInput id text => userInput id text s
  | NextClick => (nextStepBtn_click s).2
  | PrevClick => (prevStepBtn_click s).2
  | Submit => (signupForm_submit s).2
  end.

Definition run (es : list Event) (s : Page) : Page :=
  foldl (λ s e, handle e s) s es.

(** ** Predicates of the statements *)

(** No two entries of the directory have the same lowercased email. *)
Definition uniqueEmails (users : list User) : Prop :=
  NoDup (map (λ user, toLowerCase (email user)) users).

(** [0 <= currentSignupStep < signupSteps.length]. *)
Definition wizardInBounds (s : Page) : Prop :=
  0 ≤ currentSignupStep s < Z.of_nat (length (signupSteps s)).

(** The text in the input [id], if the page has it. *)
Definition fieldValue (s : Page) (id : string) : option string :=
  value <$> elements s !! id.

(** The four inputs read on submission hold these texts. *)
Definition formHolds (s : Page) (e u p c : string) : Prop :=
  fieldValue s "reg-email" = Some e ∧
  fieldValue s "reg-username" = Some u ∧
  fieldValue s "reg-password" = Some p ∧
  fieldValue s "reg-confirm-password" = Some c.

(** The inputs of a page with their borders forgotten: the handlers'
    validation feedback changes borders only. *)
Definition withoutBorders (els : gmap string Input) : gmap string Input :=
  set_border "" <$> els.

(** [s'] differs from [s] in the borders of its inputs at most. *)
Definition onlyBorders (s s' : Page) : Prop :=
  registeredUsers s' = registeredUsers s ∧
  currentSignupStep s' = currentSignupStep s ∧
  signupSteps s' = signupSteps s ∧
  effects s' = effects s ∧
  withoutBorders (elements s') = withoutBorders (elements s).

(** The input [id] holds a non-empty text. *)
Definition filled (s : Page) (id : string) : bool :=
  match fieldValue s id with
  | Some v => negb (String.eqb v "")
  | None => true
  end.

(** The page [navigateSignupStep] leaves when the test on line 112 passes. *)
Definition steppedTo (nextStep : Z) (s : Page) : Page :=
  mkPage (registeredUsers s) nextStep
         (<[Z.to_nat nextStep := mkFormStep true]>
            (<[Z.to_nat (currentSignupStep s) := mkFormStep false]> (signupSteps s)))
         (elements s) (effects s).

(** Some required input of the current step is empty. *)
Definition anyRequiredEmpty (s : Page) : bool :=
  existsb
    (λ p, bool_decide (required p.2 = true ∧
                       formStep p.2 = Some (Z.to_nat (currentSignupStep s))) &&
          String.eqb (value p.2) "")
    (map_to_list (elements s)).

(** The outcome of a click on a next-step button in the words of the
    three-case rule: missing fields first, then the duplicate check on
    step 0, else navigation. *)
Definition attemptAdvanceRule (s : Page) (regEmail : string) : AdvanceOutcome :=
  if anyRequiredEmpty s then Blocked missing_fields
  else if (currentSignupStep s =? 0) &&
          isEmailAlreadyRegistered (registeredUsers s) regEmail
       then Blocked duplicate_email
       else Advanced.

(** Exactly the step at index [cur] carries the ['active-step'] class. *)
Definition activeOnlyAt (cur : Z) (steps : list FormStep) : Prop :=
  ∀ (i : nat) (st : FormStep),
    steps !! i = Some st → active_step st = bool_decide (i = Z.to_nat cur).

Definition activeOnlyCurrent (s : Page) : Prop :=
  activeOnlyAt (currentSignupStep s) (signupSteps s).

(** The border lines 126-131 give an input: red when it is empty. *)
Definition feedbackBorder (i : Input) : Input :=
  set_border (if String.eqb (value i) "" then "2px solid red"
              else "1px solid #ced4da") i.

(** The same, for the required inputs of step [cur] only. *)
Definition markStep (cur : Z) (i : Input) : Input :=
  if bool_decide (required i = true ∧ formStep i = Some (Z.to_nat cur))
  then feedbackBorder i else i.

Definition isSubmit (e : Event) : bool :=
  match e with Submit => true | _ => false end.

(** How many submissions a sequence of events holds. *)
Definition submissions (es : list Event) : nat :=
  length (List.filter isSubmit es).

(** ** Running the primitives *)

Lemma bind_run {A B} (c : Js A) (k : A → Js B) s a s' :
  c s = (Normal a, s') → bind c k s = k a s'.
Proof. intros H. unfold bind. by rewrite H. Qed.

Lemma valueOf_run s id v :
  fieldValue s id = Some v → valueOf id s = (Normal v, s).
Proof.
  unfold fieldValue, valueOf. destruct (elements s !! id); simpl; congruence.
Qed.

Lemma array_get_in_bounds {A} (l : list A) i :
  0 ≤ i < Z.of_nat (length l) → is_Some (array_get l i).
Proof.
  intros [H0 H1]. unfold array_get. rewrite bool_decide_eq_true_2 by done.
  apply lookup_lt_is_Some. lia.
Qed.

Lemma array_get_Some_bounds {A} (l : list A) i x :
  array_get l i = Some x → 0 ≤ i < Z.of_nat (length l).
Proof.
  unfold array_get. case_bool_decide; [|done].
  intros Hl%lookup_lt_Some. lia.
Qed.

(** ** The duplicate check *)

Lemma isEmailAlreadyRegistered_true users e :
  isEmailAlreadyRegistered users e = true ↔
  ∃ user, user ∈ users ∧ toLowerCase (email user) = toLowerCase e.
Proof.
  unfold isEmailAlreadyRegistered. rewrite existsb_exists. split.
  - intros (user & Hin & Heq). exists user. split.
    + by apply list_elem_of_In.
    + by apply String.eqb_eq.
  - intros (user & Hin & Heq). exists user. split.
    + by apply list_elem_of_In.
    + by apply String.eqb_eq.
Qed.

Lemma isEmailAlreadyRegistered_false users e :
  isEmailAlreadyRegistered users e = false ↔
  toLowerCase e ∉ map (λ user, toLowerCase (email user)) users.
Proof.
  rewrite <- not_true_iff_false, isEmailAlreadyRegistered_true.
  rewrite list_elem_of_fmap. split.
  - intros Hno (user & Heq & Hin). apply Hno. eauto.
  - intros Hno (user & Hin & Heq). apply Hno. eauto.
Qed.

Lemma isEmailAlreadyRegistered_same_key users e e' :
  toLowerCase e = toLowerCase e' →
  isEmailAlreadyRegistered users e = isEmailAlreadyRegistered users e'.
Proof. intros H. unfold isEmailAlreadyRegistered. by rewrite H. Qed.

Lemma isEmailAlreadyRegistered_app users more e :
  isEmailAlreadyRegistered (users ++ more) e =
  isEmailAlreadyRegistered users e || isEmailAlreadyRegistered more e.
Proof. unfold isEmailAlreadyRegistered. apply existsb_app. Qed.

Lemma uniqueEmails_push users identity :
  uniqueEmails users →
  isEmailAlreadyRegistered users (email identity) = false →
  uniqueEmails (users ++ [identity]).
Proof.
  unfold uniqueEmails. intros Hnd Hfresh%isEmailAlreadyRegistered_false.
  rewrite map_app. simpl. apply NoDup_app. split; [done|]. split.
  - intros x Hx Hin. apply list_elem_of_singleton in Hin. by subst.
  - apply NoDup_singleton.
Qed.

(** ** Step navigation *)

Lemma setActiveStepClass_run i on s :
  0 ≤ i < Z.of_nat (length (signupSteps s)) →
  setActiveStepClass i on s =
  (Normal tt, set_signupSteps (<[Z.to_nat i := mkFormStep on]> (signupSteps s)) s).
Proof.
  intros Hi. unfold setActiveStepClass.
  by destruct (array_get_in_bounds (signupSteps s) i Hi) as [x ->].
Qed.

Lemma navigateSignupStep_run direction s :
  wizardInBounds s →
  navigateSignupStep direction s =
  let nextStep := currentSignupStep s + direction in
  if (0 <=? nextStep) && (nextStep <? Z.of_nat (length (signupSteps s)))
  then (Normal JsUndefined, steppedTo nextStep s)
  else (Normal JsUndefined, s).
Proof.
  intros Hb. unfold navigateSignupStep, bind, gets. simpl.
  destruct (_ && _) eqn:Hguard; [|done].
  apply andb_true_iff in Hguard as [H0%Z.leb_le H1%Z.ltb_lt].
  rewrite setActiveStepClass_run by done. unfold modify. simpl.
  rewrite setActiveStepClass_run by (simpl; rewrite length_insert; lia).
  done.
Qed.

Lemma navigateSignupStep_frame direction s :
  let r := navigateSignupStep direction s in
  registeredUsers r.2 = registeredUsers s ∧
  length (signupSteps r.2) = length (signupSteps s) ∧
  elements r.2 = elements s ∧
  effects r.2 = effects s ∧
  (wizardInBounds s → wizardInBounds r.2).
Proof.
  unfold navigateSignupStep, bind, gets. simpl.
  destruct (_ && _) eqn:Hguard; [|done].
  apply andb_true_iff in Hguard as [H0%Z.leb_le H1%Z.ltb_lt].
  destruct (setActiveStepClass (currentSignupStep s) false s)
    as [[[]|] s1] eqn:E1;
    unfold setActiveStepClass in E1;
    destruct (array_get (signupSteps s) (currentSignupStep s)) eqn:Hcur;
    simplify_eq; [|by auto].
  unfold modify. simpl.
  rewrite setActiveStepClass_run by (simpl; rewrite length_insert; lia).
  simpl. rewrite !length_insert. repeat split; try done.
  all: unfold wizardInBounds; simpl; rewrite ?length_insert; lia.
Qed.

(** ** Required-field validation *)

Lemma onlyBorders_refl s : onlyBorders s s.
Proof. by unfold onlyBorders. Qed.

Lemma onlyBorders_trans s1 s2 s3 :
  onlyBorders s1 s2 → onlyBorders s2 s3 → onlyBorders s1 s3.
Proof. unfold onlyBorders. intros (?&?&?&?&?) (?&?&?&?&?). repeat split; congruence. Qed.

Lemma withoutBorders_insert els id i b :
  els !! id = Some i →
  withoutBorders (<[id := set_border b i]> els) = withoutBorders els.
Proof.
  intros Hi. unfold withoutBorders. rewrite fmap_insert.
  apply insert_id. rewrite lookup_fmap, Hi. done.
Qed.

Lemma withoutBorders_fieldValue s s' id :
  withoutBorders (elements s') = withoutBorders (elements s) →
  fieldValue s' id = fieldValue s id.
Proof.
  intros Heq. apply (f_equal (λ m, m !! id)) in Heq.
  unfold withoutBorders, fieldValue in *. rewrite !lookup_fmap in Heq.
  destruct (elements s' !! id) as [i'|], (elements s !! id) as [i|];
    simpl in *; try done.
  injection Heq as Hv _ _ _. by rewrite Hv.
Qed.

Lemma setBorder_onlyBorders id b s : onlyBorders s (setBorder id b s).2.
Proof.
  unfold setBorder. destruct (elements s !! id) as [i|] eqn:Hi; simpl.
  - unfold onlyBorders. simpl. by rewrite withoutBorders_insert.
  - apply onlyBorders_refl.
Qed.

Lemma checkInput_run allValid input s v :
  fieldValue s input = Some v →
  ∃ s', checkInput allValid input s =
        (Normal (allValid && negb (String.eqb v "")), s') ∧ onlyBorders s s'.
Proof.
  intros Hv. unfold checkInput. rewrite (bind_run _ _ _ _ _ (valueOf_run _ _ _ Hv)).
  assert (is_Some (elements s !! input)) as [i Hi].
  { unfold fieldValue in Hv. destruct (elements s !! input); by eauto. }
  destruct (String.eqb v "").
  - pose proof (setBorder_onlyBorders input "2px solid red" s) as Hb.
    unfold bind, setBorder in *. rewrite Hi in *. simpl in *.
    eexists. split; [|exact Hb]. by rewrite andb_false_r.
  - pose proof (setBorder_onlyBorders input "1px solid #ced4da" s) as Hb.
    unfold bind, setBorder in *. rewrite Hi in *. simpl in *.
    eexists. split; [|exact Hb]. by rewrite andb_true_r.
Qed.

Lemma checkInput_onlyBorders allValid input s :
  onlyBorders s (checkInput allValid input s).2.
Proof.
  destruct (fieldValue s input) as [v|] eqn:Hv.
  - destruct (checkInput_run allValid input s v Hv) as (s' & -> & Hb). done.
  - unfold checkInput, bind, valueOf. unfold fieldValue in Hv.
    destruct (elements s !! input); [done|]. apply onlyBorders_refl.
Qed.

Lemma forEachInput_onlyBorders inputs allValid s :
  onlyBorders s (forEachInput inputs allValid s).2.
Proof.
  revert allValid s. induction inputs as [|input rest IH]; intros allValid s; simpl.
  - apply onlyBorders_refl.
  - pose proof (checkInput_onlyBorders allValid input s) as Hb.
    unfold bind. destruct (checkInput allValid input s) as [[a|] s1]; simpl in *.
    + eapply onlyBorders_trans; [exact Hb|apply IH].
    + done.
Qed.

Lemma filled_same s s' :
  (∀ id, fieldValue s' id = fieldValue s id) →
  ∀ inputs, forallb (filled s') inputs = forallb (filled s) inputs.
Proof.
  intros Hsame inputs. induction inputs as [|id rest IH]; [done|].
  simpl. unfold filled at 1 3. by rewrite Hsame, IH.
Qed.

Lemma forEachInput_run inputs allValid s :
  (∀ id, id ∈ inputs → is_Some (fieldValue s id)) →
  (forEachInput inputs allValid s).1 =
  Normal (allValid && forallb (filled s) inputs).
Proof.
  revert allValid s. induction inputs as [|input rest IH]; intros allValid s Hin; simpl.
  - by rewrite andb_true_r.
  - destruct (Hin input) as [v Hv]; [by left|].
    destruct (checkInput_run allValid input s v Hv) as (s1 & Hrun & Hb).
    rewrite (bind_run _ _ _ _ _ Hrun).
    assert (∀ id, fieldValue s1 id = fieldValue s id) as Hsame.
    { intros id. apply withoutBorders_fieldValue, Hb. }
    rewrite IH.
    + rewrite (filled_same s s1 Hsame). unfold filled at 2. rewrite Hv.
      by rewrite andb_assoc.
    + intros id Hid. rewrite Hsame. apply Hin. by right.
Qed.

Lemma forallb_filled_selected s (P : string * Input → Prop)
    `{∀ p, Decision (P p)} (l : list (string * Input)) :
  (∀ p, p ∈ l → elements s !! p.1 = Some p.2) →
  forallb (filled s) (map fst (filter P l)) =
  negb (existsb (λ p, bool_decide (P p) && String.eqb (value p.2) "") l).
Proof.
  induction l as [|p l IH]; intros Hl; [done|].
  rewrite filter_cons. simpl.
  assert (forallb (filled s) (map fst (filter P l)) =
          negb (existsb (λ p, bool_decide (P p) && String.eqb (value p.2) "") l))
    as IH' by (apply IH; intros q Hq; apply Hl; by right).
  destruct (decide (P p)) as [Hp|Hp].
  - rewrite bool_decide_eq_true_2 by done. simpl. rewrite IH'.
    unfold filled, fieldValue. rewrite (Hl p) by left. simpl.
    by destruct (String.eqb (value p.2) "").
  - rewrite bool_decide_eq_false_2 by done. simpl. exact IH'.
Qed.

Lemma anyRequiredEmpty_true s :
  anyRequiredEmpty s = true ↔
  ∃ id i, elements s !! id = Some i ∧ required i = true ∧
          formStep i = Some (Z.to_nat (currentSignupStep s)) ∧ value i = "".
Proof.
  unfold anyRequiredEmpty. rewrite existsb_exists. split.
  - intros ([id i] & Hin & Hp). apply andb_true_iff in Hp as [Hsel Hv].
    apply bool_decide_eq_true in Hsel as [Hreq Hstep].
    apply String.eqb_eq in Hv. exists id, i. split_and!; try done.
    apply elem_of_map_to_list. by apply list_elem_of_In.
  - intros (id & i & Hi & Hreq & Hstep & Hv). exists (id, i). split.
    + apply list_elem_of_In. by apply elem_of_map_to_list.
    + simpl. rewrite bool_decide_eq_true_2 by done. by rewrite Hv.
Qed.

(** The validation pass of the next-step handler (lines 121-132). *)
Lemma validation_run s :
  wizardInBounds s →
  ∃ s', bind (querySelectorAllRequired (currentSignupStep s))
             (λ inputs, forEachInput inputs true) s =
        (Normal (negb (anyRequiredEmpty s)), s') ∧ onlyBorders s s'.
Proof.
  intros Hb. unfold bind, querySelectorAllRequired.
  destruct (array_get_in_bounds (signupSteps s) _ Hb) as [x ->].
  set (inputs := map fst _).
  pose proof (forEachInput_onlyBorders inputs true s) as Hframe.
  pose proof (forEachInput_run inputs true s) as Hrun.
  destruct (forEachInput inputs true s) as [r s']. simpl in *.
  exists s'. split; [|done]. f_equal. rewrite Hrun.
  - simpl. unfold inputs, anyRequiredEmpty. f_equal.
    apply forallb_filled_selected.
    intros [id i] Hin. by apply elem_of_map_to_list in Hin.
  - intros id Hid. unfold inputs in Hid.
    apply list_elem_of_fmap in Hid as ([id' i] & -> & Hin).
    apply list_elem_of_filter in Hin as [_ Hin].
    apply elem_of_map_to_list in Hin. unfold fieldValue. simpl. rewrite Hin. by eexists.
Qed.

Lemma validation_frame s :
  onlyBorders s
    (bind (querySelectorAllRequired (currentSignupStep s))
          (λ inputs, forEachInput inputs true) s).2.
Proof.
  unfold bind, querySelectorAllRequired.
  destruct (array_get _ _); simpl; [|apply onlyBorders_refl].
  set (inputs := map fst _).
  pose proof (forEachInput_onlyBorders inputs true s) as Hframe.
  by destruct (forEachInput inputs true s) as [[r|] s'].
Qed.

Lemma bind_assoc {A B C} (c : Js A) (f : A → Js B) (g : B → Js C) s :
  bind c (λ x, bind (f x) g) s = bind (bind c f) g s.
Proof. unfold bind. by destruct (c s) as [[a|] s1]. Qed.

(** ** The next-step handler *)

Lemma nextStepBtn_click_split s :
  nextStepBtn_click s =
  bind (bind (querySelectorAllRequired (currentSignupStep s))
             (λ inputs, forEachInput inputs true))
       afterValidation s.
Proof.
  unfold nextStepBtn_click. unfold bind at 1, gets. cbv beta iota.
  by rewrite <- bind_assoc.
Qed.

Lemma afterValidation_step0 s :
  currentSignupStep s = 0 →
  afterValidation true s =
  match fieldValue s "reg-email" with
  | None => (TypeError, s)
  | Some e =>
      let s1 := emit (DirectoryQuery e) s in
      if isEmailAlreadyRegistered (registeredUsers s) e
      then (Normal (Blocked duplicate_email),
            emit (ShowMessage "signupForm"
                    "Error: An account with this email already exists. Please login."
                    true) s1)
      else bind (navigateSignupStep 1) (λ _, ret Advanced) s1
  end.
Proof.
  intros H0. unfold afterValidation, fieldValue.
  unfold bind at 1, gets. rewrite H0. simpl (0 =? 0).
  unfold bind at 1, valueOf.
  destruct (elements s !! "reg-email") as [i|]; [|done].
  simpl. unfold bind at 1.
  unfold callIsEmailAlreadyRegistered, bind at 1, modify, gets.
  by destruct (isEmailAlreadyRegistered _ _).
Qed.

Lemma afterValidation_later s :
  currentSignupStep s ≠ 0 →
  afterValidation true s = bind (navigateSignupStep 1) (λ _, ret Advanced) s.
Proof.
  intros Hne%Z.eqb_neq. unfold afterValidation.
  unfold bind at 1, gets. by rewrite Hne.
Qed.

Lemma navigate_forward_frame s o s' :
  bind (navigateSignupStep 1) (λ _, ret Advanced) s = (o, s') →
  registeredUsers s' = registeredUsers s ∧
  length (signupSteps s') = length (signupSteps s) ∧
  elements s' = elements s ∧
  (wizardInBounds s → wizardInBounds s') ∧
  o ≠ Normal (Blocked missing_fields) ∧ o ≠ Normal (Blocked duplicate_email).
Proof.
  pose proof (navigateSignupStep_frame 1 s) as Hf.
  unfold bind. destruct (navigateSignupStep 1 s) as [[b|] s1]; simpl in *;
    intros [= <- <-]; destruct Hf as (?&?&?&?&?); by repeat split_and.
Qed.

Lemma afterValidation_frame allValid s o s' :
  afterValidation allValid s = (o, s') →
  registeredUsers s' = registeredUsers s ∧
  length (signupSteps s') = length (signupSteps s) ∧
  elements s' = elements s ∧
  (wizardInBounds s → wizardInBounds s').
Proof.
  destruct allValid.
  - destruct (Z.eqb_spec (currentSignupStep s) 0) as [H0|Hne].
    + rewrite afterValidation_step0 by done.
      destruct (fieldValue s "reg-email") as [e|]; [|by intros [= <- <-]].
      cbv zeta. destruct (isEmailAlreadyRegistered _ _).
      * by intros [= <- <-].
      * intros H%navigate_forward_frame. simpl in H. tauto.
    + rewrite afterValidation_later by done.
      intros H%navigate_forward_frame. tauto.
  - unfold afterValidation. by intros [= <- <-].
Qed.

Lemma onlyBorders_wizardInBounds s s' :
  onlyBorders s s' → wizardInBounds s → wizardInBounds s'.
Proof. unfold wizardInBounds. intros (_ & -> & -> & _). done. Qed.

Lemma nextStepBtn_click_frame s o s' :
  nextStepBtn_click s = (o, s') →
  registeredUsers s' = registeredUsers s ∧
  length (signupSteps s') = length (signupSteps s) ∧
  (wizardInBounds s → wizardInBounds s').
Proof.
  rewrite nextStepBtn_click_split.
  pose proof (validation_frame s) as Hv. unfold bind at 1.
  destruct (bind _ _ s) as [[allValid|] s1]; simpl in Hv.
  - intros (Hu & Hl & _ & Hw)%afterValidation_frame.
    destruct Hv as (Hu1 & Hc1 & Hs1 & _).
    rewrite Hu, Hl, Hu1, Hs1. split_and!; try done.
    intros Hb. apply Hw. unfold wizardInBounds. by rewrite Hc1, Hs1.
  - intros [= <- <-]. destruct Hv as (Hu1 & Hc1 & Hs1 & _).
    unfold wizardInBounds. by rewrite Hu1, Hc1, Hs1.
Qed.

Lemma navigate_forward_run s :
  wizardInBounds s →
  bind (navigateSignupStep 1) (λ _, ret Advanced) s =
  (Normal Advanced,
   if currentSignupStep s + 1 <? Z.of_nat (length (signupSteps s))
   then steppedTo (currentSignupStep s + 1) s else s).
Proof.
  intros Hb. unfold bind. rewrite navigateSignupStep_run by done. cbv zeta.
  replace (0 <=? currentSignupStep s + 1) with true
    by (symmetry; apply Z.leb_le; unfold wizardInBounds in Hb; lia).
  simpl. by destruct (_ <? _).
Qed.

(** What the next-step handler does, case by case, on a page whose wizard
    is in bounds and that has the email input. *)
Lemma nextStepBtn_click_run s regEmail :
  wizardInBounds s →
  fieldValue s "reg-email" = Some regEmail →
  ∃ s1, onlyBorders s s1 ∧
    nextStepBtn_click s =
    if anyRequiredEmpty s then
      (Normal (Blocked missing_fields),
       emit (Alert "Please fill in all required fields.") s1)
    else if (currentSignupStep s =? 0) then
      if isEmailAlreadyRegistered (registeredUsers s) regEmail then
        (Normal (Blocked duplicate_email),
         emit (ShowMessage "signupForm"
                 "Error: An account with this email already exists. Please login."
                 true)
              (emit (DirectoryQuery regEmail) s1))
      else
        (Normal Advanced,
         if currentSignupStep s + 1 <? Z.of_nat (length (signupSteps s))
         then steppedTo (currentSignupStep s + 1) (emit (DirectoryQuery regEmail) s1)
         else emit (DirectoryQuery regEmail) s1)
    else
      (Normal Advanced,
       if currentSignupStep s + 1 <? Z.of_nat (length (signupSteps s))
       then steppedTo (currentSignupStep s + 1) s1
       else s1).
Proof.
  intros Hb He.
  destruct (validation_run s Hb) as (s1 & Hval & Hob).
  exists s1. split; [done|].
  rewrite nextStepBtn_click_split, (bind_run _ _ _ _ _ Hval).
  pose proof (onlyBorders_wizardInBounds _ _ Hob Hb) as Hb1.
  destruct Hob as (Hu & Hc & Hs & _ & Hels).
  destruct (anyRequiredEmpty s); [done|]. simpl negb.
  destruct (Z.eqb_spec (currentSignupStep s) 0) as [H0|Hne].
  - rewrite afterValidation_step0 by congruence.
    rewrite (withoutBorders_fieldValue _ _ _ Hels), He, Hu. cbv zeta.
    destruct (isEmailAlreadyRegistered _ _); [done|].
    rewrite navigate_forward_run by done. simpl. by rewrite Hc, Hs.
  - rewrite afterValidation_later by congruence.
    rewrite navigate_forward_run by done. by rewrite Hc, Hs.
Qed.

(** ** The submit handler *)

Lemma reset_twice (els : gmap string Input) :
  reset_input <$> (reset_input <$> els) = reset_input <$> els.
Proof.
  apply map_eq. intros id. rewrite !lookup_fmap. by destruct (els !! id).
Qed.

Lemma completeRegistration_run identity s ip ic :
  wizardInBounds s →
  elements s !! "reg-password" = Some ip →
  elements s !! "reg-confirm-password" = Some ic →
  completeRegistration identity s =
  (Normal (Success identity),
   mkPage (registeredUsers s ++ [identity]) 0
     (<[0%nat := mkFormStep true]>
        (<[Z.to_nat (currentSignupStep s) := mkFormStep false]> (signupSteps s)))
     (<["reg-confirm-password" := set_border "1px solid #ced4da" (reset_input ic)]>
        (<["reg-password" := set_border "1px solid #ced4da" (reset_input ip)]>
           (reset_input <$> elements s)))
     (effects s ++
        [ConsoleLog "Registered Users:" (registeredUsers s ++ [identity]);
         ShowMessage "signupForm"
           "Account Registration Complete! Please log in above." false])).
Proof.
  intros Hb Hp Hc.
  unfold completeRegistration, bind, modify, gets, showMessage, formReset. simpl.
  unfold setBorder, bind. simpl. rewrite reset_twice.
  rewrite lookup_fmap, Hp. simpl.
  rewrite lookup_insert_ne by done. rewrite lookup_fmap, Hc. simpl.
  rewrite setActiveStepClass_run by done. simpl.
  rewrite setActiveStepClass_run
    by (simpl; rewrite length_insert; unfold wizardInBounds in Hb; lia).
  simpl. unfold emit, set_registeredUsers. simpl. by rewrite <- app_assoc.
Qed.

Lemma completeRegistration_frame identity s o s' :
  completeRegistration identity s = (o, s') →
  registeredUsers s' = registeredUsers s ++ [identity] ∧
  length (signupSteps s') = length (signupSteps s) ∧
  (wizardInBounds s → wizardInBounds s').
Proof.
  unfold completeRegistration, bind, modify, gets, showMessage, formReset. simpl.
  unfold setBorder, bind. simpl.
  destruct (_ !! "reg-password"); simpl; [|by intros [= <- <-]].
  destruct (_ !! "reg-confirm-password"); simpl; [|by intros [= <- <-]].
  unfold setActiveStepClass at 1. simpl.
  destruct (array_get (signupSteps s) (currentSignupStep s)) eqn:Hcur; simpl;
    [|by intros [= <- <-]].
  apply array_get_Some_bounds in Hcur.
  rewrite setActiveStepClass_run by (simpl; rewrite length_insert; lia).
  simpl. intros [= <- <-]. simpl. rewrite !length_insert. split_and!; try done.
  intros _. unfold wizardInBounds. simpl. rewrite !length_insert. lia.
Qed.

(** What the submit handler does, case by case, on a page that has the
    four inputs. *)
Lemma signupForm_submit_run s e u p c :
  formHolds s e u p c →
  signupForm_submit s =
  if negb (String.eqb p c) then
    bind (setBorder "reg-confirm-password" "2px solid red")
         (λ _, ret PasswordMismatch)
         (emit (ShowMessage "signupForm" "Error: Passwords do not match." true) s)
  else if isEmailAlreadyRegistered (registeredUsers s) e then
    (Normal DuplicateEmail,
     emit (ShowMessage "signupForm"
             "Error: An account with this email already exists. Please login."
             true)
          (emit (DirectoryQuery e) s))
  else completeRegistration (mkUser e u p) (emit (DirectoryQuery e) s).
Proof.
  intros (He & Hu & Hp & Hc). unfold signupForm_submit. cbv zeta.
  rewrite (bind_run _ _ _ _ _ (valueOf_run _ _ _ Hp)).
  rewrite (bind_run _ _ _ _ _ (valueOf_run _ _ _ Hc)).
  destruct (negb (String.eqb p c)); [done|].
  rewrite (bind_run _ _ _ _ _ (valueOf_run _ _ _ He)).
  unfold bind at 1, callIsEmailAlreadyRegistered, bind at 1, modify, gets.
  cbv beta iota.
  destruct (isEmailAlreadyRegistered _ _); [done|].
  assert (∀ id, fieldValue (emit (DirectoryQuery e) s) id = fieldValue s id)
    as Hsame by done.
  rewrite (bind_run _ _ _ e _) by (apply valueOf_run; by rewrite Hsame).
  rewrite (bind_run _ _ _ u _) by (apply valueOf_run; by rewrite Hsame).
  done.
Qed.

Lemma signupForm_submit_frame s o s' :
  signupForm_submit s = (o, s') →
  length (signupSteps s') = length (signupSteps s) ∧
  (wizardInBounds s → wizardInBounds s') ∧
  (uniqueEmails (registeredUsers s) → uniqueEmails (registeredUsers s')).
Proof.
  unfold signupForm_submit. cbv zeta.
  unfold bind at 1, valueOf at 1.
  destruct (elements s !! "reg-password") as [ip|]; [|by intros [= <- <-]].
  unfold bind at 1, valueOf at 1.
  destruct (elements s !! "reg-confirm-password") as [ic|] eqn:Hc;
    [|by intros [= <- <-]].
  destruct (negb _).
  { unfold showMessage, bind, modify, setBorder. simpl. rewrite Hc.
    by intros [= <- <-]. }
  unfold bind at 1, valueOf at 1.
  destruct (elements s !! "reg-email") as [ie|] eqn:He; [|by intros [= <- <-]].
  unfold bind at 1, callIsEmailAlreadyRegistered, bind at 1, modify, gets.
  cbv beta iota.
  destruct (isEmailAlreadyRegistered _ _) eqn:Hdup; [by intros [= <- <-]|].
  unfold bind at 1, valueOf at 1. simpl elements. rewrite He.
  unfold bind at 1, valueOf at 1. simpl elements.
  destruct (elements s !! "reg-username") as [iu|]; [|by intros [= <- <-]].
  intros (Hu & Hl & Hw)%completeRegistration_frame. simpl in *.
  split_and!; [done|done|].
  intros Huniq. rewrite Hu. by apply uniqueEmails_push.
Qed.

(** ** Events *)

Lemma handle_frame e s :
  length (signupSteps (handle e s)) = length (signupSteps s) ∧
  (wizardInBounds s → wizardInBounds (handle e s)) ∧
  (uniqueEmails (registeredUsers s) → uniqueEmails (registeredUsers (handle e s))).
Proof.
  destruct e as [id text| | |]; simpl.
  - done.
  - destruct (nextStepBtn_click s) as [o s'] eqn:Hrun.
    apply nextStepBtn_click_frame in Hrun as (Hu & Hl & Hw). simpl.
    by rewrite Hu.
  - pose proof (navigateSignupStep_frame (-1) s) as (Hu & Hl & _ & _ & Hw).
    unfold prevStepBtn_click. by rewrite Hu.
  - destruct (signupForm_submit s) as [o s'] eqn:Hrun.
    by apply signupForm_submit_frame in Hrun.
Qed.

Lemma run_frame es s :
  length (signupSteps (run es s)) = length (signupSteps s) ∧
  (wizardInBounds s → wizardInBounds (run es s)) ∧
  (uniqueEmails (registeredUsers s) → uniqueEmails (registeredUsers (run es s))).
Proof.
  revert s. induction es as [|e es IH]; intros s; [done|].
  change (run (e :: es) s) with (run es (handle e s)).
  destruct (IH (handle e s)) as (Hl & Hw & Hq).
  destruct (handle_frame e s) as (Hl0 & Hw0 & Hq0).
  rewrite Hl, Hl0. auto.
Qed.

(** A submission with matching passwords and a fresh email, on a page that
    has the four inputs and whose wizard is in bounds. *)
Lemma signupForm_submit_success s e u p :
  wizardInBounds s →
  formHolds s e u p p →
  isEmailAlreadyRegistered (registeredUsers s) e = false →
  ∃ s', signupForm_submit s = (Normal (Success (mkUser e u p)), s') ∧
    registeredUsers s' = registeredUsers s ++ [mkUser e u p] ∧
    currentSignupStep s' = 0 ∧
    signupSteps s' =
      <[0%nat := mkFormStep true]>
        (<[Z.to_nat (currentSignupStep s) := mkFormStep false]> (signupSteps s)).
Proof.
  intros Hb Hform Hfresh.
  rewrite (signupForm_submit_run s e u p p Hform).
  rewrite String.eqb_refl, Hfresh. simpl negb. cbv iota.
  destruct Hform as (_ & _ & Hp & Hc). unfold fieldValue in Hp, Hc.
  destruct (elements s !! "reg-password") as [ip|] eqn:Hip; [|done].
  destruct (elements s !! "reg-confirm-password") as [ic|] eqn:Hic; [|done].
  rewrite (completeRegistration_run _ _ ip ic) by done.
  eexists. split; [done|]. done.
Qed.

(** C3: [isEmailAlreadyRegistered] answers true exactly when some stored
    user's email, lowercased, equals the lowercased input; and a call of it
    leaves the directory, the wizard and the inputs as they were. *)
Theorem exists_iff_lowercased_match (users : list User) (e : string) :
  (isEmailAlreadyRegistered users e = true ↔
   ∃ user, user ∈ users ∧ toLowerCase (email user) = toLowerCase e) ∧
  ∀ s : Page,
    let r := callIsEmailAlreadyRegistered e s in
    r.1 = Normal (isEmailAlreadyRegistered (registeredUsers s) e) ∧
    registeredUsers r.2 = registeredUsers s ∧
    currentSignupStep r.2 = currentSignupStep s ∧
    signupSteps r.2 = signupSteps s ∧
    elements r.2 = elements s.
Proof.
  split; [apply isEmailAlreadyRegistered_true|].
  intros s. by cbv zeta.
Qed.

(** C4, as amended: on a page whose wizard is in bounds and that has the
    email input, a click on a next-step button follows the three-case rule
    [attemptAdvanceRule].  With an empty required input of the current step
    it is blocked for missing fields, the directory and the wizard stay as
    they are and the only effect is the alert (no directory query).
    Otherwise, on step 0 with a registered email, it is blocked as a
    duplicate and the directory and the wizard stay as they are.  Otherwise
    [navigateSignupStep(1)] runs and the outcome is [Advanced]: the wizard
    moves one step forward when a next step exists and stays where it is on
    the last step. *)
Theorem attemptAdvance_three_cases (s : Page) (regEmail : string) :
  wizardInBounds s →
  fieldValue s "reg-email" = Some regEmail →
  let r := nextStepBtn_click s in
  let cur := currentSignupStep s in
  let n := Z.of_nat (length (signupSteps s)) in
  r.1 = Normal (attemptAdvanceRule s regEmail) ∧
  registeredUsers r.2 = registeredUsers s ∧
  match attemptAdvanceRule s regEmail with
  | Blocked missing_fields =>
      currentSignupStep r.2 = cur ∧ signupSteps r.2 = signupSteps s ∧
      effects r.2 = effects s ++ [Alert "Please fill in all required fields."]
  | Blocked duplicate_email =>
      currentSignupStep r.2 = cur ∧ signupSteps r.2 = signupSteps s
  | Advanced =>
      currentSignupStep r.2 = (if cur + 1 <? n then cur + 1 else cur) ∧
      signupSteps r.2 =
        (if cur + 1 <? n
         then <[Z.to_nat (cur + 1) := mkFormStep true]>
                (<[Z.to_nat cur := mkFormStep false]> (signupSteps s))
         else signupSteps s)
  end.
Proof.
  intros Hb He. cbv zeta.
  destruct (nextStepBtn_click_run s regEmail Hb He)
    as (s1 & (Hu & Hc & Hs & Hf & _) & ->).
  unfold attemptAdvanceRule.
  destruct (anyRequiredEmpty s); simpl.
  { by rewrite Hu, Hc, Hs, Hf. }
  destruct (currentSignupStep s =? 0); simpl.
  - destruct (isEmailAlreadyRegistered _ _); simpl.
    + by rewrite Hu, Hc, Hs.
    + destruct (_ <? _); simpl; by rewrite Hu, Hc, Hs.
  - destruct (_ <? _); simpl; by rewrite Hu, Hc, Hs.
Qed.

(** C5: whenever a click on a next-step button is blocked, for missing
    fields or for a duplicate email, the step index and the steps are what
    they were, whatever the index was; so are the directory and the texts
    of the inputs. *)
Theorem blocked_advance_keeps_wizard (s s' : Page) (reason : BlockReason) :
  nextStepBtn_click s = (Normal (Blocked reason), s') →
  currentSignupStep s' = currentSignupStep s ∧
  signupSteps s' = signupSteps s ∧
  registeredUsers s' = registeredUsers s ∧
  ∀ id, fieldValue s' id = fieldValue s id.
Proof.
  rewrite nextStepBtn_click_split.
  pose proof (validation_frame s) as Hv. unfold bind at 1.
  destruct (bind _ _ s) as [[allValid|] s1]; simpl in Hv; [|done].
  destruct Hv as (Hu & Hc & Hs & _ & Hels).
  assert (∀ id, fieldValue s1 id = fieldValue s id) as Hval
    by (intros id; by apply withoutBorders_fieldValue).
  destruct allValid.
  - destruct (Z.eqb_spec (currentSignupStep s) 0) as [H0|Hne].
    + rewrite afterValidation_step0 by congruence.
      destruct (fieldValue s1 "reg-email") as [e|]; [|done].
      cbv zeta. destruct (isEmailAlreadyRegistered _ _).
      * by intros [= <- <-].
      * intros H%navigate_forward_frame. destruct reason; tauto.
    + rewrite afterValidation_later by congruence.
      intros H%navigate_forward_frame. destruct reason; tauto.
  - unfold afterValidation. by intros [= <- <-].
Qed.

(** C1: a submission with the form holding identity A (passwords
    matching) registers A or finds it registered; on any later page that
    has the directory as that submission left it and whose form holds an
    identity B with the same lowercased email, a submission comes to
    [DuplicateEmail] and leaves the directory, contents and size, as it
    was. *)
Theorem second_registration_is_duplicate
    (s s1 : Page) (eA uA pA eB uB pB : string) :
  formHolds s eA uA pA pA →
  toLowerCase eA = toLowerCase eB →
  registeredUsers s1 = registeredUsers (signupForm_submit s).2 →
  formHolds s1 eB uB pB pB →
  let r := signupForm_submit s1 in
  r.1 = Normal DuplicateEmail ∧
  registeredUsers r.2 = registeredUsers s1 ∧
  length (registeredUsers r.2) = length (registeredUsers s1).
Proof.
  intros HA Hkey Hdir HB. cbv zeta.
  assert (isEmailAlreadyRegistered (registeredUsers s1) eB = true) as Hdup.
  { rewrite <- (isEmailAlreadyRegistered_same_key _ eA eB Hkey), Hdir.
    rewrite (signupForm_submit_run s eA uA pA pA HA).
    rewrite String.eqb_refl. simpl negb. cbv iota.
    destruct (isEmailAlreadyRegistered (registeredUsers s) eA) eqn:Hreg; [done|].
    destruct (completeRegistration _ _) as [o s'] eqn:Hrun.
    apply completeRegistration_frame in Hrun as (Hpush & _). simpl.
    rewrite Hpush. simpl. rewrite isEmailAlreadyRegistered_app, Hreg. simpl.
    unfold isEmailAlreadyRegistered. simpl. by rewrite String.eqb_refl. }
  rewrite (signupForm_submit_run s1 eB uB pB pB HB).
  by rewrite String.eqb_refl, Hdup.
Qed.

(** C2: if the lowercased emails of the seeded directory are pairwise
    distinct, then after any sequence of events on the loaded page (edits
    of the inputs, clicks on next-step and previous-step buttons,
    submissions) the lowercased emails of the directory are pairwise
    distinct. *)
Theorem directory_emails_stay_unique
    (steps : list FormStep) (els : gmap string Input) (es : list Event) :
  uniqueEmails seedUsers →
  uniqueEmails (registeredUsers (run es (initialPage steps els))).
Proof. intros Hseed. by apply run_frame. Qed.

(** C6, as amended: on a page whose wizard is in bounds, a click on a
    previous-step button moves the wizard one step back when
    [currentSignupStep - 1 >= 0] and changes nothing at step 0; in both
    cases the call yields [undefined], the function having no [return]
    statement.  It reads no input: the directory and the inputs are left as
    they are, and the result is the same whatever the inputs hold. *)
Theorem retreat_decrements_or_stays (s : Page) :
  wizardInBounds s →
  let r := prevStepBtn_click s in
  r.1 = Normal JsUndefined ∧
  (if 0 <=? currentSignupStep s - 1
   then currentSignupStep r.2 = currentSignupStep s - 1
   else r.2 = s) ∧
  registeredUsers r.2 = registeredUsers s ∧
  elements r.2 = elements s ∧
  ∀ els : gmap string Input,
    let r' := prevStepBtn_click (set_elements els s) in
    r'.1 = r.1 ∧
    currentSignupStep r'.2 = currentSignupStep r.2 ∧
    signupSteps r'.2 = signupSteps r.2.
Proof.
  intros Hb. cbv zeta. unfold prevStepBtn_click.
  assert ((currentSignupStep s - 1 <? Z.of_nat (length (signupSteps s))) = true)
    as Hlt by (apply Z.ltb_lt; unfold wizardInBounds in Hb; lia).
  assert (∀ els, navigateSignupStep (-1) (set_elements els s) =
                 (Normal JsUndefined,
                  if 0 <=? currentSignupStep s - 1
                  then steppedTo (currentSignupStep s - 1) (set_elements els s)
                  else set_elements els s)) as Hany.
  { intros els. rewrite navigateSignupStep_run by done. cbv zeta. simpl.
    replace (currentSignupStep s + -1) with (currentSignupStep s - 1) by lia.
    rewrite Hlt, andb_true_r. by destruct (0 <=? _). }
  rewrite navigateSignupStep_run by done. cbv zeta.
  replace (currentSignupStep s + -1) with (currentSignupStep s - 1) by lia.
  rewrite Hlt, andb_true_r.
  destruct (0 <=? currentSignupStep s - 1) eqn:Hg.
  - split_and!; try done. intros els. by rewrite Hany.
  - split_and!; try done. intros els. by rewrite Hany.
Qed.

(** C7: for a non-empty list of steps, every event keeps
    [0 <= currentSignupStep < signupSteps.length] and the number of steps,
    and the bounds hold on the loaded page and after any sequence of events
    on it. *)
Theorem wizard_stays_in_bounds
    (steps : list FormStep) (els : gmap string Input) :
  steps ≠ [] →
  wizardInBounds (initialPage steps els) ∧
  (∀ (e : Event) (s : Page),
     wizardInBounds s →
     wizardInBounds (handle e s) ∧
     length (signupSteps (handle e s)) = length (signupSteps s)) ∧
  (∀ es : list Event,
     wizardInBounds (run es (initialPage steps els)) ∧
     length (signupSteps (run es (initialPage steps els))) = length steps).
Proof.
  intros Hne.
  assert (wizardInBounds (initialPage steps els)) as Hinit.
  { unfold wizardInBounds. simpl. destruct steps; [done|]. simpl. lia. }
  split_and!; [done| |].
  - intros e s Hb. destruct (handle_frame e s) as (Hl & Hw & _). auto.
  - intros es. destruct (run_frame es (initialPage steps els)) as (Hl & Hw & _).
    auto.
Qed.

(** C8: when the password and confirmation inputs hold different strings,
    a submission comes to [PasswordMismatch]; the directory, the step
    index, the steps and the texts of the inputs are what they were, and
    the only effect is the error message: no directory query, no
    registration. *)
Theorem mismatch_changes_nothing (s : Page) (p c : string) :
  fieldValue s "reg-password" = Some p →
  fieldValue s "reg-confirm-password" = Some c →
  p ≠ c →
  let r := signupForm_submit s in
  r.1 = Normal PasswordMismatch ∧
  registeredUsers r.2 = registeredUsers s ∧
  length (registeredUsers r.2) = length (registeredUsers s) ∧
  currentSignupStep r.2 = currentSignupStep s ∧
  signupSteps r.2 = signupSteps s ∧
  effects r.2 =
    effects s ++ [ShowMessage "signupForm" "Error: Passwords do not match." true] ∧
  ∀ id, fieldValue r.2 id = fieldValue s id.
Proof.
  intros Hp Hc Hne. cbv zeta. unfold signupForm_submit. cbv zeta.
  rewrite (bind_run _ _ _ _ _ (valueOf_run _ _ _ Hp)).
  rewrite (bind_run _ _ _ _ _ (valueOf_run _ _ _ Hc)).
  apply String.eqb_neq in Hne. rewrite Hne. simpl negb. cbv iota.
  assert (∃ ic, elements s !! "reg-confirm-password" = Some ic) as [ic Hic].
  { unfold fieldValue in Hc. destruct (elements s !! _); by eauto. }
  unfold showMessage, bind, modify, setBorder. simpl. rewrite Hic. simpl.
  split_and!; try done.
  intros id. apply withoutBorders_fieldValue. simpl.
  by apply withoutBorders_insert.
Qed.

(** C9: on a page whose wizard is in bounds, when the password and
    confirmation inputs hold the same string and the email is not
    registered, a submission comes to [Success]: the directory grows by
    exactly the entry made of the email as typed, the username and the
    password, put last; the step index is 0 and step 0 is the active
    step. *)
Theorem submit_registers_and_resets (s : Page) (e u p : string) :
  wizardInBounds s →
  formHolds s e u p p →
  isEmailAlreadyRegistered (registeredUsers s) e = false →
  let r := signupForm_submit s in
  r.1 = Normal (Success (mkUser e u p)) ∧
  registeredUsers r.2 = registeredUsers s ++ [mkUser e u p] ∧
  length (registeredUsers r.2) = S (length (registeredUsers s)) ∧
  email <$> last (registeredUsers r.2) = Some e ∧
  currentSignupStep r.2 = 0 ∧
  array_get (signupSteps r.2) (currentSignupStep r.2) = Some (mkFormStep true).
Proof.
  intros Hb Hform Hfresh. cbv zeta.
  destruct (signupForm_submit_success s e u p Hb Hform Hfresh)
    as (s' & -> & Hu & Hc & Hs).
  simpl. rewrite Hu, Hc, Hs. split_and!; try done.
  - rewrite length_app. simpl. lia.
  - by rewrite last_snoc.
  - unfold array_get. simpl. apply list_lookup_insert_eq.
    rewrite length_insert. unfold wizardInBounds in Hb. lia.
Qed.

(** C10: the submit handler checks no input for emptiness.  On a page
    whose wizard is in bounds, with the password and confirmation inputs
    both empty and an email, empty or not, that is not registered, a
    submission comes to [Success] and stores the entry with the empty
    password, whatever inputs are marked required. *)
Theorem submit_accepts_empty_fields (s : Page) (e u : string) :
  wizardInBounds s →
  formHolds s e u "" "" →
  isEmailAlreadyRegistered (registeredUsers s) e = false →
  let r := signupForm_submit s in
  r.1 = Normal (Success (mkUser e u "")) ∧
  registeredUsers r.2 = registeredUsers s ++ [mkUser e u ""].
Proof.
  intros Hb Hform Hfresh. cbv zeta.
  destruct (signupForm_submit_success s e u "" Hb Hform Hfresh)
    as (s' & -> & Hu & _).
  done.
Qed.

(** ** Further properties of the signup handlers *)

(** X1: a submission with matching passwords and an email that is
    registered, in any letter case, comes to [DuplicateEmail] and changes
    nothing of the page: directory, wizard and inputs, borders included,
    are untouched; the directory query and the error message are the only
    effects. *)
Theorem duplicate_submission_changes_nothing (s : Page) (e u p : string) :
  formHolds s e u p p →
  isEmailAlreadyRegistered (registeredUsers s) e = true →
  let r := signupForm_submit s in
  r.1 = Normal DuplicateEmail ∧
  registeredUsers r.2 = registeredUsers s ∧
  currentSignupStep r.2 = currentSignupStep s ∧
  signupSteps r.2 = signupSteps s ∧
  elements r.2 = elements s ∧
  effects r.2 =
    effects s ++
    [DirectoryQuery e;
     ShowMessage "signupForm"
       "Error: An account with this email already exists. Please login." true].
Proof.
  intros Hform Hdup. cbv zeta.
  rewrite (signupForm_submit_run s e u p p Hform).
  rewrite String.eqb_refl, Hdup. simpl. split_and!; try done.
  by rewrite <- app_assoc.
Qed.

Lemma signupForm_submit_success_page s e u p :
  wizardInBounds s →
  formHolds s e u p p →
  isEmailAlreadyRegistered (registeredUsers s) e = false →
  ∃ ip ic,
    elements s !! "reg-password" = Some ip ∧
    elements s !! "reg-confirm-password" = Some ic ∧
    signupForm_submit s =
    (Normal (Success (mkUser e u p)),
     mkPage (registeredUsers s ++ [mkUser e u p]) 0
       (<[0%nat := mkFormStep true]>
          (<[Z.to_nat (currentSignupStep s) := mkFormStep false]> (signupSteps s)))
       (<["reg-confirm-password" := set_border "1px solid #ced4da" (reset_input ic)]>
          (<["reg-password" := set_border "1px solid #ced4da" (reset_input ip)]>
             (reset_input <$> elements s)))
       (effects s ++
          [DirectoryQuery e;
           ConsoleLog "Registered Users:" (registeredUsers s ++ [mkUser e u p]);
           ShowMessage "signupForm"
             "Account Registration Complete! Please log in above." false])).
Proof.
  intros Hb Hform Hfresh.
  rewrite (signupForm_submit_run s e u p p Hform).
  rewrite String.eqb_refl, Hfresh. simpl negb. cbv iota.
  destruct Hform as (_ & _ & Hp & Hc). unfold fieldValue in Hp, Hc.
  destruct (elements s !! "reg-password") as [ip|] eqn:Hip; [|done].
  destruct (elements s !! "reg-confirm-password") as [ic|] eqn:Hic; [|done].
  exists ip, ic. split_and!; try done.
  rewrite (completeRegistration_run _ _ ip ic) by done.
  simpl. by rewrite <- app_assoc.
Qed.

(** X2: a successful submission clears the form: every input of the page
    is still there and holds its default value, with its [required] mark
    and its step as before, and the password and confirmation inputs have
    the plain border. *)
Theorem successful_submission_clears_form (s : Page) (e u p : string) :
  wizardInBounds s →
  formHolds s e u p p →
  isEmailAlreadyRegistered (registeredUsers s) e = false →
  let r := signupForm_submit s in
  (∀ id, fieldValue r.2 id = defaultValue <$> elements s !! id) ∧
  (∀ id, required <$> elements r.2 !! id = required <$> elements s !! id) ∧
  (∀ id, formStep <$> elements r.2 !! id = formStep <$> elements s !! id) ∧
  border <$> elements r.2 !! "reg-password" = Some "1px solid #ced4da" ∧
  border <$> elements r.2 !! "reg-confirm-password" = Some "1px solid #ced4da".
Proof.
  intros Hb Hform Hfresh. cbv zeta.
  destruct (signupForm_submit_success_page s e u p Hb Hform Hfresh)
    as (ip & ic & Hip & Hic & ->).
  unfold fieldValue. simpl.
  assert (∀ (f : Input → string + bool + option nat) id,
            (∀ i b, f (set_border b (reset_input i)) = f (reset_input i)) →
            f <$> (<["reg-confirm-password" :=
                       set_border "1px solid #ced4da" (reset_input ic)]>
                     (<["reg-password" :=
                          set_border "1px solid #ced4da" (reset_input ip)]>
                        (reset_input <$> elements s))) !! id =
            (λ i, f (reset_input i)) <$> elements s !! id) as Hsame.
  { intros f id Hf.
    destruct (decide (id = "reg-confirm-password")) as [->|Hn1].
    { rewrite lookup_insert_eq, Hic. simpl. by rewrite Hf. }
    rewrite lookup_insert_ne by done.
    destruct (decide (id = "reg-password")) as [->|Hn2].
    { rewrite lookup_insert_eq, Hip. simpl. by rewrite Hf. }
    rewrite lookup_insert_ne by done. rewrite lookup_fmap.
    by destruct (elements s !! id). }
  split_and!.
  - intros id.
    pose proof (Hsame (λ i, inl (inl (value i))) id (λ _ _, eq_refl)) as H.
    destruct (_ !! id), (elements s !! id); simpl in *; congruence.
  - intros id.
    pose proof (Hsame (λ i, inl (inr (required i))) id (λ _ _, eq_refl)) as H.
    destruct (_ !! id), (elements s !! id); simpl in *; congruence.
  - intros id.
    pose proof (Hsame (λ i, inr (formStep i)) id (λ _ _, eq_refl)) as H.
    destruct (_ !! id), (elements s !! id); simpl in *; congruence.
  - rewrite lookup_insert_ne by done. by rewrite lookup_insert_eq.
  - by rewrite lookup_insert_eq.
Qed.

(** Every run of the submit handler either stops before line 176 with the
    directory, the wizard and the texts of the inputs as they were, or
    reaches the registration block. *)
Lemma signupForm_submit_cases s o s' :
  signupForm_submit s = (o, s') →
  ((∀ identity, o ≠ Normal (Success identity)) ∧
   registeredUsers s' = registeredUsers s ∧
   currentSignupStep s' = currentSignupStep s ∧
   signupSteps s' = signupSteps s ∧
   ∀ id, fieldValue s' id = fieldValue s id) ∨
  (∃ e u p,
     formHolds s e u p p ∧
     isEmailAlreadyRegistered (registeredUsers s) e = false ∧
     completeRegistration (mkUser e u p) (emit (DirectoryQuery e) s) = (o, s')).
Proof.
  unfold signupForm_submit. cbv zeta.
  unfold bind at 1, valueOf at 1.
  destruct (elements s !! "reg-password") as [ip|] eqn:Hp;
    [|intros [= <- <-]; by left].
  unfold bind at 1, valueOf at 1.
  destruct (elements s !! "reg-confirm-password") as [ic|] eqn:Hc;
    [|intros [= <- <-]; by left].
  destruct (String.eqb (value ip) (value ic)) eqn:Hpc; cbn [negb].
  2:{ unfold showMessage, bind, modify, setBorder. simpl. rewrite Hc.
      intros [= <- <-]. left. split_and!; try done.
      intros id. apply withoutBorders_fieldValue. simpl.
      by apply withoutBorders_insert. }
  apply String.eqb_eq in Hpc.
  unfold bind at 1, valueOf at 1.
  destruct (elements s !! "reg-email") as [ie|] eqn:He;
    [|intros [= <- <-]; by left].
  unfold bind at 1, callIsEmailAlreadyRegistered, bind at 1, modify, gets.
  cbv beta iota.
  destruct (isEmailAlreadyRegistered _ _) eqn:Hdup;
    [intros [= <- <-]; by left|].
  unfold bind at 1, valueOf at 1. simpl elements. rewrite He.
  unfold bind at 1, valueOf at 1. simpl elements.
  destruct (elements s !! "reg-username") as [iu|] eqn:Hu;
    [|intros [= <- <-]; by left].
  intros Hrun. right. exists (value ie), (value iu), (value ip).
  split_and!; try done.
  unfold formHolds, fieldValue. rewrite He, Hu, Hp, Hc. simpl.
  by rewrite Hpc.
Qed.

(** X3: on a page whose wizard is in bounds a submission is all or
    nothing.  Either it comes to [Success], with the new entry pushed
    last, its email not registered before and the wizard back on step 0;
    or it does not, and the directory, the step index, the steps and the
    texts of the inputs are what they were, whichever way it stopped:
    mismatch, duplicate or a missing input. *)
Theorem submission_is_all_or_nothing
    (s s' : Page) (o : Completion SubmitOutcome) :
  wizardInBounds s →
  signupForm_submit s = (o, s') →
  (∃ identity,
     o = Normal (Success identity) ∧
     registeredUsers s' = registeredUsers s ++ [identity] ∧
     isEmailAlreadyRegistered (registeredUsers s) (email identity) = false ∧
     currentSignupStep s' = 0) ∨
  ((∀ identity, o ≠ Normal (Success identity)) ∧
   registeredUsers s' = registeredUsers s ∧
   currentSignupStep s' = currentSignupStep s ∧
   signupSteps s' = signupSteps s ∧
   ∀ id, fieldValue s' id = fieldValue s id).
Proof.
  intros Hb [Hstop|(e & u & p & Hform & Hfresh & Hrun)]%signupForm_submit_cases;
    [by right|].
  left. exists (mkUser e u p).
  destruct (signupForm_submit_success_page s e u p Hb Hform Hfresh)
    as (ip & ic & Hip & Hic & Hpage).
  rewrite (signupForm_submit_run s e u p p Hform) in Hpage.
  rewrite String.eqb_refl, Hfresh in Hpage. simpl in Hpage.
  rewrite Hrun in Hpage. by injection Hpage as -> ->.
Qed.

Lemma handle_directory e s :
  registeredUsers (handle e s) = registeredUsers s ∨
  (e = Submit ∧ ∃ identity,
     registeredUsers (handle e s) = registeredUsers s ++ [identity]).
Proof.
  destruct e as [id text| | |]; simpl.
  - by left.
  - destruct (nextStepBtn_click s) as [o s'] eqn:Hrun.
    apply nextStepBtn_click_frame in Hrun as (Hu & _). by left.
  - pose proof (navigateSignupStep_frame (-1) s) as (Hu & _). by left.
  - destruct (signupForm_submit s) as [o s'] eqn:Hrun.
    apply signupForm_submit_cases in Hrun
      as [(_ & Hu & _)|(e & u & p & _ & _ & Hrun)]; [by left|].
    apply completeRegistration_frame in Hrun as (Hu & _).
    right. split; [done|]. by exists (mkUser e u p).
Qed.

Lemma run_directory (es : list Event) (s : Page) :
  registeredUsers s `prefix_of` registeredUsers (run es s) ∧
  (length (registeredUsers (run es s)) ≤
   length (registeredUsers s) + submissions es)%nat ∧
  (submissions es = 0%nat → registeredUsers (run es s) = registeredUsers s).
Proof.
  revert s. induction es as [|e es IH]; intros s.
  { simpl. split_and!; [done|lia|done]. }
  change (run (e :: es) s) with (run es (handle e s)).
  destruct (IH (handle e s)) as (Hpre & Hlen & Hnone).
  unfold submissions in *. simpl List.filter.
  destruct (handle_directory e s) as [Hsame|(-> & identity & Hpush)].
  - rewrite Hsame in *. split_and!; [done| |].
    + destruct (isSubmit e); simpl; lia.
    + destruct (isSubmit e); simpl; [done|]. exact Hnone.
  - rewrite Hpush in *. simpl. split_and!; [|rewrite length_app in Hlen; simpl in Hlen; lia|done].
    etrans; [|exact Hpre]. by apply prefix_app_r.
Qed.

(** X4: the directory only grows, at its end, and only by submissions.
    After any sequence of events the directory of before is a prefix of
    the directory of after, and the number of new entries is at most the
    number of submissions in the sequence; edits of inputs and clicks on
    next-step and previous-step buttons alone leave it as it is. *)
Theorem directory_is_append_only (es : list Event) (s : Page) :
  registeredUsers s `prefix_of` registeredUsers (run es s) ∧
  (length (registeredUsers (run es s)) ≤
   length (registeredUsers s) + submissions es)%nat ∧
  (submissions es = 0%nat → registeredUsers (run es s) = registeredUsers s).
Proof. apply run_directory. Qed.

(** X5: an email that the duplicate check finds stays found: after any
    sequence of events [isEmailAlreadyRegistered] still answers true for
    it, and for every email with the same lowercase form. *)
Theorem registered_email_stays_registered
    (es : list Event) (s : Page) (e e' : string) :
  isEmailAlreadyRegistered (registeredUsers s) e = true →
  toLowerCase e' = toLowerCase e →
  isEmailAlreadyRegistered (registeredUsers (run es s)) e' = true.
Proof.
  intros Hreg Hkey.
  destruct (run_directory es s) as ([more ->] & _).
  rewrite (isEmailAlreadyRegistered_same_key _ e' e Hkey).
  by rewrite isEmailAlreadyRegistered_app, Hreg.
Qed.

(** *** The active step *)

Lemma activeOnlyAt_move cur nextStep steps :
  activeOnlyAt cur steps →
  activeOnlyAt nextStep
    (<[Z.to_nat nextStep := mkFormStep true]>
       (<[Z.to_nat cur := mkFormStep false]> steps)).
Proof.
  intros Hact i st Hi.
  apply list_lookup_insert_Some in Hi as [(<- & <- & _)|(Hne & Hi)].
  { simpl. by rewrite bool_decide_eq_true_2. }
  rewrite bool_decide_eq_false_2 by done.
  apply list_lookup_insert_Some in Hi as [(_ & <- & _)|(Hne' & Hi)]; [done|].
  rewrite (Hact i st Hi). by rewrite bool_decide_eq_false_2.
Qed.

Lemma steps_round_trip cur there steps :
  activeOnlyAt cur steps →
  (Z.to_nat cur < length steps)%nat →
  <[Z.to_nat cur := mkFormStep true]>
    (<[there := mkFormStep false]>
       (<[there := mkFormStep true]>
          (<[Z.to_nat cur := mkFormStep false]> steps))) = steps.
Proof.
  intros Hact Hlt.
  assert (steps !! Z.to_nat cur = Some (mkFormStep true)) as Hcur.
  { destruct (lookup_lt_is_Some_2 steps _ Hlt) as [[a] Hst].
    pose proof (Hact _ _ Hst) as Ha. simpl in Ha.
    rewrite bool_decide_eq_true_2 in Ha by done. by rewrite Hst, Ha. }
  rewrite list_insert_insert_eq.
  destruct (decide (there = Z.to_nat cur)) as [->|Hne].
  - rewrite !list_insert_insert_eq. by apply list_insert_id.
  - rewrite (list_insert_insert_ne _ there) by done.
    rewrite list_insert_insert_eq.
    rewrite (list_insert_insert_ne _ (Z.to_nat cur) there) by done.
    rewrite (list_insert_id steps (Z.to_nat cur)) by done.
    apply list_insert_id'. intros Hth.
    destruct (lookup_lt_is_Some_2 steps _ Hth) as [[a] Hst].
    pose proof (Hact _ _ Hst) as Ha. simpl in Ha.
    rewrite bool_decide_eq_false_2 in Ha by done. by rewrite Hst, Ha.
Qed.

(** What a click on a next-step button can do to the wizard. *)
Lemma nextStepBtn_click_wizard s o s' :
  wizardInBounds s →
  nextStepBtn_click s = (o, s') →
  (currentSignupStep s' = currentSignupStep s ∧ signupSteps s' = signupSteps s) ∨
  (currentSignupStep s + 1 < Z.of_nat (length (signupSteps s)) ∧
   currentSignupStep s' = currentSignupStep s + 1 ∧
   signupSteps s' =
     <[Z.to_nat (currentSignupStep s + 1) := mkFormStep true]>
       (<[Z.to_nat (currentSignupStep s) := mkFormStep false]> (signupSteps s))).
Proof.
  intros Hb.
  destruct (validation_run s Hb) as (s1 & Hval & Hob).
  rewrite nextStepBtn_click_split, (bind_run _ _ _ _ _ Hval).
  pose proof (onlyBorders_wizardInBounds _ _ Hob Hb) as Hb1.
  destruct Hob as (Hu & Hc & Hs & _ & Hels).
  assert (∀ s2, currentSignupStep s2 = currentSignupStep s →
                signupSteps s2 = signupSteps s →
                bind (navigateSignupStep 1) (λ _, ret Advanced) s2 = (o, s') →
                (currentSignupStep s' = currentSignupStep s ∧
                 signupSteps s' = signupSteps s) ∨
                (currentSignupStep s + 1 < Z.of_nat (length (signupSteps s)) ∧
                 currentSignupStep s' = currentSignupStep s + 1 ∧
                 signupSteps s' =
                   <[Z.to_nat (currentSignupStep s + 1) := mkFormStep true]>
                     (<[Z.to_nat (currentSignupStep s) := mkFormStep false]>
                        (signupSteps s)))) as Hnav.
  { intros s2 Hc2 Hs2.
    rewrite navigate_forward_run by (unfold wizardInBounds; by rewrite Hc2, Hs2).
    rewrite Hc2, Hs2.
    destruct (_ <? _) eqn:Hlt; intros [= <- <-].
    - right. apply Z.ltb_lt in Hlt. simpl. by rewrite Hc2, Hs2.
    - by left. }
  destruct (negb (anyRequiredEmpty s)).
  - destruct (Z.eqb_spec (currentSignupStep s1) 0) as [H0|Hne].
    + rewrite afterValidation_step0 by done.
      destruct (fieldValue s1 "reg-email") as [e|];
        [|intros [= <- <-]; by left].
      cbv zeta. destruct (isEmailAlreadyRegistered _ _).
      * intros [= <- <-]. by left.
      * by apply Hnav.
    + rewrite afterValidation_later by done. by apply Hnav.
  - unfold afterValidation. intros [= <- <-]. by left.
Qed.

Lemma handle_active e s :
  wizardInBounds s → activeOnlyCurrent s → activeOnlyCurrent (handle e s).
Proof.
  intros Hb Hact. unfold activeOnlyCurrent in *.
  destruct e as [id text| | |]; simpl.
  - done.
  - destruct (nextStepBtn_click s) as [o s'] eqn:Hrun. simpl.
    apply nextStepBtn_click_wizard in Hrun
      as [(-> & ->)|(_ & -> & ->)]; [done| |done].
    by apply activeOnlyAt_move.
  - unfold prevStepBtn_click. rewrite navigateSignupStep_run by done.
    cbv zeta. destruct (_ && _); simpl; [|done].
    by apply activeOnlyAt_move.
  - destruct (signupForm_submit s) as [o s'] eqn:Hrun. simpl.
    pose proof Hrun as
      [(_ & _ & -> & -> & _)|(e & u & p & Hform & Hfresh & _)]%signupForm_submit_cases;
      [done|].
    destruct (signupForm_submit_success_page s e u p Hb Hform Hfresh)
      as (ip & ic & _ & _ & Hpage).
    rewrite Hrun in Hpage. injection Hpage as _ ->. simpl.
    by apply (activeOnlyAt_move _ 0).
Qed.

(** X6: the step shown is the current step.  On a page whose wizard is in
    bounds and where exactly the step at [currentSignupStep] carries the
    ['active-step'] class, this is still so after any sequence of
    events. *)
Theorem active_step_is_current_step (es : list Event) (s : Page) :
  wizardInBounds s →
  activeOnlyCurrent s →
  activeOnlyCurrent (run es s).
Proof.
  revert s. induction es as [|e es IH]; intros s Hb Hact; [done|].
  change (run (e :: es) s) with (run es (handle e s)).
  apply IH.
  - by apply handle_frame.
  - by apply handle_active.
Qed.

(** X7: moving and moving back is a round trip.  On such a page, when the
    step [direction] away exists, [navigateSignupStep(direction)] followed
    by [navigateSignupStep(-direction)] passes the test of line 112 both
    times, yields [undefined] both times, and gives back the page it
    started from, index and classes. *)
Theorem navigate_there_and_back (s : Page) (direction : Z) :
  wizardInBounds s →
  activeOnlyCurrent s →
  0 ≤ currentSignupStep s + direction < Z.of_nat (length (signupSteps s)) →
  let there := navigateSignupStep direction s in
  let passes (d : Z) (p : Page) :=
    (0 <=? currentSignupStep p + d) &&
    (currentSignupStep p + d <? Z.of_nat (length (signupSteps p))) in
  passes direction s = true ∧
  there.1 = Normal JsUndefined ∧
  currentSignupStep there.2 = currentSignupStep s + direction ∧
  passes (- direction) there.2 = true ∧
  navigateSignupStep (- direction) there.2 = (Normal JsUndefined, s).
Proof.
  intros Hb Hact Hdir. cbv zeta.
  rewrite navigateSignupStep_run by done. cbv zeta.
  replace (0 <=? currentSignupStep s + direction) with true
    by (symmetry; apply Z.leb_le; lia).
  replace (currentSignupStep s + direction <? Z.of_nat (length (signupSteps s)))
    with true by (symmetry; apply Z.ltb_lt; lia).
  simpl.
  assert ((0 <=? currentSignupStep s + direction + - direction) &&
          (currentSignupStep s + direction + - direction
           <? Z.of_nat (length (signupSteps s))) = true) as Hback.
  { unfold wizardInBounds in Hb. apply andb_true_iff. split.
    - apply Z.leb_le. lia.
    - apply Z.ltb_lt. lia. }
  rewrite !length_insert. split_and!; try done.
  rewrite navigateSignupStep_run
    by (unfold wizardInBounds; simpl; rewrite !length_insert; lia).
  cbv zeta. simpl currentSignupStep. simpl signupSteps.
  rewrite !length_insert, Hback.
  replace (currentSignupStep s + direction + - direction)
    with (currentSignupStep s) by lia.
  f_equal. unfold steppedTo. simpl.
  rewrite steps_round_trip; [by destruct s|done|].
  unfold wizardInBounds in Hb. lia.
Qed.

(** *** Validation feedback *)

Lemma feedbackBorder_twice i : feedbackBorder (feedbackBorder i) = feedbackBorder i.
Proof. unfold feedbackBorder. simpl. by destruct (String.eqb (value i) ""). Qed.

Lemma checkInput_elements allValid input s i :
  elements s !! input = Some i →
  elements (checkInput allValid input s).2 =
  <[input := feedbackBorder i]> (elements s).
Proof.
  intros Hi. unfold checkInput, bind, valueOf. rewrite Hi.
  unfold feedbackBorder.
  destruct (String.eqb (value i) ""); unfold setBorder; rewrite Hi; done.
Qed.

Lemma forEachInput_elements inputs allValid s id :
  (∀ id', id' ∈ inputs → is_Some (elements s !! id')) →
  elements (forEachInput inputs allValid s).2 !! id =
  (λ i, if bool_decide (id ∈ inputs) then feedbackBorder i else i)
    <$> elements s !! id.
Proof.
  revert allValid s. induction inputs as [|input rest IH]; intros allValid s Hin.
  { simpl. by destruct (elements s !! id). }
  destruct (Hin input) as [i Hi]; [by left|].
  assert (fieldValue s input = Some (value i)) as Hv
    by (unfold fieldValue; by rewrite Hi).
  pose proof (checkInput_elements allValid input s i Hi) as Hels.
  destruct (checkInput_run allValid input s _ Hv) as (s1 & Hrun & _).
  rewrite Hrun in Hels. simpl in Hels.
  simpl forEachInput. rewrite (bind_run _ _ _ _ _ Hrun).
  rewrite IH.
  2:{ intros id' Hid'. rewrite Hels. apply lookup_insert_is_Some'.
      right. apply Hin. by right. }
  rewrite Hels.
  destruct (decide (id = input)) as [->|Hne].
  - rewrite lookup_insert_eq, Hi. simpl.
    rewrite (bool_decide_eq_true_2 (input ∈ input :: rest)) by left.
    case_bool_decide; by rewrite ?feedbackBorder_twice.
  - rewrite lookup_insert_ne by done.
    destruct (elements s !! id) as [j|]; [|done]. simpl. f_equal.
    assert (id ∈ input :: rest ↔ id ∈ rest) as Hiff.
    { rewrite elem_of_cons. tauto. }
    by rewrite (bool_decide_ext _ _ Hiff).
Qed.

(** X8: on a page whose wizard is in bounds, a click on a next-step button
    leaves the inputs as they were but for the borders of the required
    inputs of the current step: red on each empty one, plain on each
    filled one.  This holds whether the click then advances, is blocked or
    stops for want of the email input. *)
Theorem next_click_marks_required_inputs (s : Page) :
  wizardInBounds s →
  elements (nextStepBtn_click s).2 =
  markStep (currentSignupStep s) <$> elements s.
Proof.
  intros Hb.
  destruct (nextStepBtn_click s) as [o s'] eqn:Hrun. simpl.
  rewrite nextStepBtn_click_split in Hrun.
  destruct (validation_run s Hb) as (s1 & Hval & _).
  rewrite (bind_run _ _ _ _ _ Hval) in Hrun.
  apply afterValidation_frame in Hrun as (_ & _ & -> & _).
  unfold bind, querySelectorAllRequired in Hval.
  destruct (array_get_in_bounds (signupSteps s) _ Hb) as [x Hx].
  rewrite Hx in Hval.
  set (inputs := map fst _) in Hval.
  assert (∀ id, id ∈ inputs ↔
                ∃ i, elements s !! id = Some i ∧ required i = true ∧
                     formStep i = Some (Z.to_nat (currentSignupStep s))) as Hsel.
  { intros id. unfold inputs. rewrite list_elem_of_fmap. split.
    - intros ([id' i] & -> & Hin).
      apply list_elem_of_filter in Hin as [[Hr Hf] Hin].
      apply elem_of_map_to_list in Hin. by exists i.
    - intros (i & Hi & Hr & Hf). exists (id, i). split; [done|].
      apply list_elem_of_filter. split; [done|]. by apply elem_of_map_to_list. }
  assert (elements s1 = elements (forEachInput inputs true s).2) as ->
    by (by destruct (forEachInput inputs true s) as [[a|] s2]; simplify_eq).
  apply map_eq. intros id. rewrite forEachInput_elements.
  2:{ intros id' (i & Hi & _)%Hsel. by rewrite Hi. }
  rewrite lookup_fmap. destruct (elements s !! id) as [i|] eqn:Hi; [|done].
  simpl. f_equal. unfold markStep.
  assert (id ∈ inputs ↔
          required i = true ∧
          formStep i = Some (Z.to_nat (currentSignupStep s))) as Hiff.
  { rewrite Hsel. split.
    - intros (j & Hj & Hr & Hf). by assert (j = i) as <- by congruence.
    - intros [Hr Hf]. by exists i. }
  by rewrite (bool_decide_ext _ _ Hiff).
Qed.

(** X9: the duplicate check belongs to step 0.  On a page whose wizard is
    in bounds and whose current step is not step 0, a click on a next-step
    button never calls [isEmailAlreadyRegistered] and needs no email
    input: with an empty required input its only effect is the alert,
    otherwise it has no effect at all and comes to [Advanced]. *)
Theorem next_click_off_step0_never_queries (s : Page) :
  wizardInBounds s →
  currentSignupStep s ≠ 0 →
  let r := nextStepBtn_click s in
  r.1 = Normal (if anyRequiredEmpty s then Blocked missing_fields else Advanced) ∧
  effects r.2 =
    effects s ++
    (if anyRequiredEmpty s then [Alert "Please fill in all required fields."]
     else []) ∧
  registeredUsers r.2 = registeredUsers s.
Proof.
  intros Hb Hne. cbv zeta.
  destruct (validation_run s Hb) as (s1 & Hval & Hob).
  rewrite nextStepBtn_click_split, (bind_run _ _ _ _ _ Hval).
  pose proof (onlyBorders_wizardInBounds _ _ Hob Hb) as Hb1.
  destruct Hob as (Hu & Hc & Hs & Hf & _).
  destruct (anyRequiredEmpty s); simpl negb.
  - unfold afterValidation. simpl. by rewrite Hu, Hf.
  - rewrite afterValidation_later by congruence.
    rewrite navigate_forward_run by done.
    destruct (_ <? _); simpl; by rewrite Hu, Hf, app_nil_r.
Qed.

(** *** The gate and the submission together *)

Lemma completeRegistration_outcome identity s o s' :
  completeRegistration identity s = (o, s') →
  o = TypeError ∨ o = Normal (Success identity).
Proof.
  unfold completeRegistration, bind, modify, gets, showMessage, formReset. simpl.
  unfold setBorder, bind. simpl.
  destruct (_ !! "reg-password"); simpl; [|intros [= <- <-]; by left].
  destruct (_ !! "reg-confirm-password"); simpl; [|intros [= <- <-]; by left].
  destruct (setActiveStepClass _ false _) as [[[]|] s2];
    [|intros [= <- <-]; by left].
  destruct (setActiveStepClass _ true _) as [[[]|] s3];
    intros [= <- <-]; [by right|by left].
Qed.

(** X10: what a submission registered the gate of step 0 stops.  After a
    successful submission, on every later page whose directory extends the
    one it left, a click on a next-step button on step 0, with the
    required inputs filled and an email of the same lowercase form as the
    registered one, is blocked as a duplicate and the wizard stays on
    step 0. *)
Theorem registered_email_is_blocked_at_step0
    (s s1 s2 : Page) (identity : User) (e' : string) :
  signupForm_submit s = (Normal (Success identity), s1) →
  registeredUsers s1 `prefix_of` registeredUsers s2 →
  wizardInBounds s2 →
  currentSignupStep s2 = 0 →
  anyRequiredEmpty s2 = false →
  fieldValue s2 "reg-email" = Some e' →
  toLowerCase e' = toLowerCase (email identity) →
  let r := nextStepBtn_click s2 in
  r.1 = Normal (Blocked duplicate_email) ∧
  currentSignupStep r.2 = 0 ∧
  signupSteps r.2 = signupSteps s2 ∧
  registeredUsers r.2 = registeredUsers s2.
Proof.
  intros Hsub [more Hmore] Hb H0 Hfilled He Hkey. cbv zeta.
  assert (registeredUsers s1 = registeredUsers s ++ [identity]) as Hpush.
  { apply signupForm_submit_cases in Hsub
      as [(Hno & _)|(e & u & p & _ & _ & Hrun)]; [by destruct (Hno identity)|].
    pose proof (completeRegistration_outcome _ _ _ _ Hrun) as [?|Hid]; [done|].
    apply completeRegistration_frame in Hrun as (Hp & _).
    rewrite Hp. simpl. by injection Hid as ->. }
  assert (isEmailAlreadyRegistered (registeredUsers s2) e' = true) as Hdup.
  { rewrite (isEmailAlreadyRegistered_same_key _ _ _ Hkey), Hmore, Hpush.
    rewrite !isEmailAlreadyRegistered_app.
    unfold isEmailAlreadyRegistered at 2. simpl. rewrite String.eqb_refl.
    simpl. by rewrite orb_true_r. }
  destruct (nextStepBtn_click_run s2 e' Hb He)
    as (s3 & (Hu & Hc & Hs & _) & ->).
  rewrite Hfilled, H0, Hdup. simpl. by rewrite Hu, Hc, Hs.
Qed.

(** X11: what the gate of step 0 lets through the submission accepts.
    When a click on a next-step button on step 0 comes to [Advanced], then
    on every page with the same directory whose wizard is in bounds a
    submission with matching passwords and an email of the same lowercase
    form as the one that passed comes to [Success] and pushes its entry:
    the check of line 170 cannot fire. *)
Theorem email_past_the_gate_is_accepted
    (s s1 s2 : Page) (e e' u p : string) :
  wizardInBounds s →
  currentSignupStep s = 0 →
  fieldValue s "reg-email" = Some e →
  nextStepBtn_click s = (Normal Advanced, s1) →
  registeredUsers s2 = registeredUsers s1 →
  wizardInBounds s2 →
  formHolds s2 e' u p p →
  toLowerCase e' = toLowerCase e →
  let r := signupForm_submit s2 in
  r.1 = Normal (Success (mkUser e' u p)) ∧
  registeredUsers r.2 = registeredUsers s ++ [mkUser e' u p].
Proof.
  intros Hb H0 He Hnext Hdir Hb2 Hform Hkey. cbv zeta.
  pose proof (nextStepBtn_click_frame _ _ _ Hnext) as (Hu & _).
  destruct (nextStepBtn_click_run s e Hb He) as (s3 & _ & Hrun).
  rewrite Hnext, H0 in Hrun. simpl in Hrun.
  assert (isEmailAlreadyRegistered (registeredUsers s) e = false) as Hfresh.
  { destruct (anyRequiredEmpty s); [done|].
    by destruct (isEmailAlreadyRegistered _ _). }
  assert (isEmailAlreadyRegistered (registeredUsers s2) e' = false) as Hfresh2.
  { by rewrite (isEmailAlreadyRegistered_same_key _ _ _ Hkey), Hdir, Hu. }
  destruct (signupForm_submit_success s2 e' u p Hb2 Hform Hfresh2)
    as (s' & -> & Hpush & _).
  simpl. by rewrite Hpush, Hdir, Hu.
Qed.

End Signup.

(** ** The handlers on concrete pages *)

(** Five runs on the two-step form. *)

Example scenario1_duplicate_blocks :
  (nextStepBtn_click string_toLowerCase
     (initialPage twoSteps (signupInputs "USER@EXAMPLE.COM" "x" "" ""))).1
  = Normal (Blocked duplicate_email).
Proof. by vm_compute. Qed.

Example scenario2_missing_fields :
  let r := nextStepBtn_click string_toLowerCase
             (initialPage twoSteps (signupInputs "" "x" "" "")) in
  r.1 = Normal (Blocked missing_fields) ∧
  effects r.2 = [Alert "Please fill in all required fields."].
Proof. by vm_compute. Qed.

Example scenario3_advances :
  let r := nextStepBtn_click string_toLowerCase
             (initialPage twoSteps (signupInputs "new@x.com" "new" "" "")) in
  r.1 = Normal Advanced ∧ currentSignupStep r.2 = 1 ∧
  signupSteps r.2 = [mkFormStep false; mkFormStep true].
Proof. by vm_compute. Qed.

Example scenario4_mismatch :
  let r := signupForm_submit string_toLowerCase
             (pageOnStep1 seedUsers "new@x.com" "new" "abc" "xyz") in
  r.1 = Normal PasswordMismatch ∧ length (registeredUsers r.2) = 2%nat.
Proof. by vm_compute. Qed.

Example scenario5_success :
  let r := signupForm_submit string_toLowerCase
             (pageOnStep1 seedUsers "new@x.com" "new" "abc" "abc") in
  r.1 = Normal (Success (mkUser "new@x.com" "new" "abc")) ∧
  length (registeredUsers r.2) = 3%nat ∧
  currentSignupStep r.2 = 0 ∧
  signupSteps r.2 = [mkFormStep true; mkFormStep false].
Proof. by vm_compute. Qed.

Example seed_emails_unique : uniqueEmails string_toLowerCase seedUsers.
Proof. apply (bool_decide_unpack _). by vm_compute. Qed.

(** ** The theorems at concrete pages *)

(** A page reached from the loaded one: the first step filled in with a
    fresh email and passed, both passwords typed on the second step. *)
Lemma lastStepPage_reached :
  run string_toLowerCase
    [UserInput "reg-email" "new@x.com"; UserInput "reg-username" "new";
     NextClick;
     UserInput "reg-password" "abc"; UserInput "reg-confirm-password" "abc"]
    loadedPage
  = mkPage seedUsers 1 [mkFormStep false; mkFormStep true]
      (<["reg-email" := mkInput "new@x.com" "" true (Some 0%nat) "1px solid #ced4da"]>
         (<["reg-username" := mkInput "new" "" true (Some 0%nat) "1px solid #ced4da"]>
            (signupInputs "" "" "abc" "abc")))
      [DirectoryQuery "new@x.com"].
Proof. by vm_compute. Qed.

(** C4 as stated fails on the last step.  On the page reached above every
    required input of the current step is filled and the step is not step
    0; the click comes to [Advanced] and yet the wizard has not moved. *)
Lemma advance_on_last_step_stays :
  let s := run string_toLowerCase
             [UserInput "reg-email" "new@x.com"; UserInput "reg-username" "new";
              NextClick;
              UserInput "reg-password" "abc";
              UserInput "reg-confirm-password" "abc"]
             loadedPage in
  let r := nextStepBtn_click string_toLowerCase s in
  wizardInBounds s ∧
  anyRequiredEmpty s = false ∧
  currentSignupStep s = 1 ∧
  length (signupSteps s) = 2%nat ∧
  r.1 = Normal Advanced ∧
  currentSignupStep r.2 = 1 ∧
  currentSignupStep r.2 ≠ currentSignupStep s + 1.
Proof. vm_compute. split_and!; try done. all: by intros [=]. Qed.

(** C6 as stated fails on the value returned.  On the second step a click
    on a previous-step button moves the wizard one step back, and on the
    first step it changes nothing, as claimed; but the call yields
    [undefined] both times, neither [true] nor [false]. *)
Lemma retreat_returns_undefined :
  let s := pageOnStep1 seedUsers "" "" "" "" in
  let r := prevStepBtn_click s in
  let r0 := prevStepBtn_click loadedPage in
  wizardInBounds s ∧
  0 ≤ currentSignupStep s - 1 ∧
  currentSignupStep r.2 = currentSignupStep s - 1 ∧
  r.1 = Normal JsUndefined ∧
  r.1 ≠ Normal (JsBoolean true) ∧
  wizardInBounds loadedPage ∧
  currentSignupStep loadedPage = 0 ∧
  r0.2 = loadedPage ∧
  r0.1 = Normal JsUndefined ∧
  r0.1 ≠ Normal (JsBoolean false).
Proof.
  cbv zeta. split_and!; try (unfold wizardInBounds; simpl; lia);
    try reflexivity; by intros [=].
Qed.

Lemma second_registration_is_duplicate_witness :
  let s := pageOnStep1 seedUsers "New@X.com" "a" "pw" "pw" in
  let s1 := set_elements (signupInputs "NEW@x.COM" "b" "pw2" "pw2")
              (signupForm_submit string_toLowerCase s).2 in
  let r := signupForm_submit string_toLowerCase s1 in
  r.1 = Normal DuplicateEmail ∧
  registeredUsers r.2 = registeredUsers s1 ∧
  length (registeredUsers r.2) = length (registeredUsers s1).
Proof.
  apply (second_registration_is_duplicate string_toLowerCase
           (pageOnStep1 seedUsers "New@X.com" "a" "pw" "pw") _
           "New@X.com" "a" "pw" "NEW@x.COM" "b" "pw2");
    by vm_compute.
Defined.

Lemma directory_emails_stay_unique_witness :
  uniqueEmails string_toLowerCase
    (registeredUsers
       (run string_toLowerCase
          [UserInput "reg-email" "new@x.com"; UserInput "reg-username" "new";
           NextClick; UserInput "reg-password" "abc";
           UserInput "reg-confirm-password" "abc"; Submit;
           UserInput "reg-email" "NEW@X.COM"; UserInput "reg-username" "again";
           NextClick; PrevClick; Submit]
          (initialPage twoSteps (signupInputs "" "" "" "")))).
Proof.
  apply (directory_emails_stay_unique string_toLowerCase).
  apply (bool_decide_unpack _). by vm_compute.
Defined.

Lemma attemptAdvance_three_cases_witness :
  let s := initialPage twoSteps (signupInputs "new@x.com" "new" "" "") in
  let r := nextStepBtn_click string_toLowerCase s in
  r.1 = Normal Advanced ∧ currentSignupStep r.2 = 1.
Proof.
  pose proof (attemptAdvance_three_cases string_toLowerCase
                (initialPage twoSteps (signupInputs "new@x.com" "new" "" ""))
                "new@x.com") as H.
  cbv zeta in *.
  destruct H as (Hout & _ & Hstep).
  - unfold wizardInBounds. simpl. lia.
  - by vm_compute.
  - split.
    + rewrite Hout. by vm_compute.
    + revert Hstep. vm_compute. tauto.
Defined.

Lemma blocked_advance_keeps_wizard_witness :
  let s := initialPage twoSteps (signupInputs "" "x" "" "") in
  let s' := (nextStepBtn_click string_toLowerCase s).2 in
  currentSignupStep s' = currentSignupStep s ∧ signupSteps s' = signupSteps s.
Proof.
  intros s s'.
  assert (nextStepBtn_click string_toLowerCase s =
          (Normal (Blocked missing_fields), s')) as Hrun by (by vm_compute).
  destruct (blocked_advance_keeps_wizard string_toLowerCase s s'
              missing_fields Hrun) as (Hc & Hs & _).
  split; [exact Hc | exact Hs].
Defined.

Lemma retreat_decrements_or_stays_witness :
  let s := pageOnStep1 seedUsers "" "" "" "" in
  let r := prevStepBtn_click s in
  r.1 = Normal JsUndefined ∧ currentSignupStep r.2 = currentSignupStep s - 1.
Proof.
  intros s r.
  assert (wizardInBounds s) as Hb by (unfold wizardInBounds; simpl; lia).
  destruct (retreat_decrements_or_stays s Hb) as (Hout & Hmove & _).
  split; [exact Hout | exact Hmove].
Defined.

Lemma wizard_stays_in_bounds_witness :
  wizardInBounds
    (run string_toLowerCase [NextClick; PrevClick; PrevClick; Submit; NextClick]
       (initialPage twoSteps (signupInputs "a@b.c" "a" "" ""))).
Proof.
  assert (twoSteps ≠ []) as Hne by done.
  destruct (wizard_stays_in_bounds string_toLowerCase twoSteps
              (signupInputs "a@b.c" "a" "" "") Hne) as (_ & _ & Hrun).
  apply Hrun.
Defined.

Lemma mismatch_changes_nothing_witness :
  let s := pageOnStep1 seedUsers "new@x.com" "new" "abc" "xyz" in
  let r := signupForm_submit string_toLowerCase s in
  r.1 = Normal PasswordMismatch ∧
  registeredUsers r.2 = registeredUsers s ∧
  currentSignupStep r.2 = currentSignupStep s.
Proof.
  intros s r.
  assert (fieldValue s "reg-password" = Some "abc") as Hp by (by vm_compute).
  assert (fieldValue s "reg-confirm-password" = Some "xyz") as Hc
    by (by vm_compute).
  assert ("abc" ≠ "xyz") as Hne by done.
  destruct (mismatch_changes_nothing string_toLowerCase s "abc" "xyz" Hp Hc Hne)
    as (Hout & Hu & _ & Hcur & _).
  split_and!; [exact Hout | exact Hu | exact Hcur].
Defined.

Lemma submit_registers_and_resets_witness :
  let s := pageOnStep1 seedUsers "New@X.com" "new" "abc" "abc" in
  let r := signupForm_submit string_toLowerCase s in
  r.1 = Normal (Success (mkUser "New@X.com" "new" "abc")) ∧
  registeredUsers r.2 = seedUsers ++ [mkUser "New@X.com" "new" "abc"] ∧
  currentSignupStep r.2 = 0.
Proof.
  intros s r.
  assert (wizardInBounds s) as Hb by (unfold wizardInBounds; simpl; lia).
  assert (formHolds s "New@X.com" "new" "abc" "abc") as Hform by (by vm_compute).
  assert (isEmailAlreadyRegistered string_toLowerCase (registeredUsers s)
            "New@X.com" = false) as Hfresh by (by vm_compute).
  destruct (submit_registers_and_resets string_toLowerCase s
              "New@X.com" "new" "abc" Hb Hform Hfresh)
    as (Hout & Hu & _ & _ & Hc & _).
  split_and!; [exact Hout | exact Hu | exact Hc].
Defined.

Lemma submit_accepts_empty_fields_witness :
  let s := pageOnStep1 seedUsers "" "" "" "" in
  let r := signupForm_submit string_toLowerCase s in
  anyRequiredEmpty s = true ∧
  r.1 = Normal (Success (mkUser "" "" "")) ∧
  registeredUsers r.2 = seedUsers ++ [mkUser "" "" ""].
Proof.
  intros s r.
  assert (wizardInBounds s) as Hb by (unfold wizardInBounds; simpl; lia).
  assert (formHolds s "" "" "" "") as Hform by (by vm_compute).
  assert (isEmailAlreadyRegistered string_toLowerCase (registeredUsers s) ""
          = false) as Hfresh by (by vm_compute).
  split; [by vm_compute|].
  exact (submit_accepts_empty_fields string_toLowerCase s "" "" Hb Hform Hfresh).
Defined.

(** ** The appointment form *)

Lemma hbind_run {S A B} (c : Handler S A) (k : A → Handler S B) s a s' :
  c s = (Normal a, s') → (c ≫= k) s = k a s'.
Proof. intros H. unfold mbind, Handler_bind. by rewrite H. Qed.

Lemma checkAppointmentInput_run allValid input b i :
  appointmentInputs b !! input = Some i →
  checkAppointmentInput allValid input b =
  (Normal (allValid && negb (required i && String.eqb (value i) "")),
   set_appointmentInputs
     (<[input := appointmentFeedback i]> (appointmentInputs b)) b).
Proof.
  intros Hi. unfold checkAppointmentInput, appointmentFeedback. rewrite Hi.
  destruct (required i && String.eqb (value i) ""); simpl.
  - by rewrite andb_false_r.
  - by rewrite andb_true_r.
Qed.

Lemma appointmentFeedback_twice i :
  appointmentFeedback (appointmentFeedback i) = appointmentFeedback i.
Proof.
  unfold appointmentFeedback. simpl.
  by destruct (required i && String.eqb (value i) "").
Qed.

Lemma forEachAppointmentInput_run inputs allValid b :
  (∀ id, id ∈ inputs → is_Some (appointmentInputs b !! id)) →
  ∃ els',
    forEachAppointmentInput inputs allValid b =
    (Normal (allValid && forallb (passes (appointmentInputs b)) inputs),
     set_appointmentInputs els' b) ∧
    ∀ id, els' !! id =
          (λ i, if bool_decide (id ∈ inputs) then appointmentFeedback i else i)
            <$> appointmentInputs b !! id.
Proof.
  revert allValid b. induction inputs as [|input rest IH]; intros allValid b Hin.
  { exists (appointmentInputs b). simpl. rewrite andb_true_r. split.
    - by destruct b.
    - intros id. by destruct (appointmentInputs b !! id). }
  destruct (Hin input) as [i Hi]; [by left|].
  pose proof (checkAppointmentInput_run allValid input b i Hi) as Hrun.
  set (b1 := set_appointmentInputs _ b) in Hrun.
  destruct (IH (allValid && negb (required i && String.eqb (value i) "")) b1)
    as (els' & Hrest & Hels).
  { intros id Hid. simpl. apply lookup_insert_is_Some'. right. apply Hin. by right. }
  exists els'. split.
  - simpl forEachAppointmentInput. rewrite (hbind_run _ _ _ _ _ Hrun), Hrest.
    assert (forallb (passes (appointmentInputs b1)) rest =
            forallb (passes (appointmentInputs b)) rest) as ->.
    { subst b1. simpl appointmentInputs. clear -Hi.
      induction rest as [|id rest IH]; [done|]. simpl. rewrite IH.
      f_equal. unfold passes.
      destruct (decide (id = input)) as [->|Hne].
      - by rewrite lookup_insert_eq, Hi.
      - by rewrite lookup_insert_ne. }
    simpl forallb. unfold passes at 2. rewrite Hi.
    by rewrite <- andb_assoc.
  - intros id. rewrite Hels. simpl.
    destruct (decide (id = input)) as [->|Hne].
    + rewrite lookup_insert_eq, Hi. simpl.
      rewrite (bool_decide_eq_true_2 (input ∈ input :: rest)) by left.
      case_bool_decide; by rewrite ?appointmentFeedback_twice.
    + rewrite lookup_insert_ne by done.
      destruct (appointmentInputs b !! id) as [j|]; [|done]. simpl. f_equal.
      assert (id ∈ input :: rest ↔ id ∈ rest) as Hiff.
      { rewrite elem_of_cons. tauto. }
      by rewrite (bool_decide_ext _ _ Hiff).
Qed.

Lemma hgets_bind {S A B} (f : S → A) (k : A → Handler S B) s :
  (hgets f ≫= k) s = k (f s) s.
Proof. done. Qed.

Lemma hmodify_bind {S B} (f : S → S) (k : unit → Handler S B) s :
  (hmodify f ≫= k) s = k tt (f s).
Proof. done. Qed.

Lemma forallb_passes_selected (els : gmap string Input) (cur : nat)
    (l : list (string * Input)) :
  (∀ p, p ∈ l → els !! p.1 = Some p.2) →
  forallb (passes els)
    (map fst (filter (λ p, required p.2 = true ∧ formStep p.2 = Some cur) l)) =
  negb (existsb
          (λ p, bool_decide (required p.2 = true ∧ formStep p.2 = Some cur) &&
                String.eqb (value p.2) "") l).
Proof.
  induction l as [|p l IH]; intros Hl; [done|].
  rewrite filter_cons. simpl existsb.
  assert (∀ q, q ∈ l → els !! q.1 = Some q.2) as Hl'
    by (intros q Hq; apply Hl; by right).
  destruct (decide (required p.2 = true ∧ formStep p.2 = Some cur)) as [Hp|Hp].
  - rewrite bool_decide_eq_true_2 by done. simpl. rewrite (IH Hl').
    unfold passes. rewrite (Hl p) by left. destruct Hp as [-> _]. simpl.
    by destruct (String.eqb (value p.2) "").
  - rewrite bool_decide_eq_false_2 by done. simpl. exact (IH Hl').
Qed.

(** The validation pass of lines 213-222 and 248-257, followed by [k]. *)
Lemma appointment_validation_run {B} (k : bool → Handler Booking B) b :
  bookingInBounds b →
  (appointmentRequiredInputs (currentAppointmentStep b) ≫= λ inputs,
   forEachAppointmentInput inputs true ≫= k) b =
  k (negb (anyAppointmentInputEmpty b))
    (set_appointmentInputs
       (markAppointmentStep (currentAppointmentStep b) <$> appointmentInputs b) b).
Proof.
  intros Hb. unfold mbind at 1, Handler_bind at 1, appointmentRequiredInputs.
  destruct (array_get_in_bounds (appointmentSteps b) _ Hb) as [x ->].
  set (inputs := map fst _).
  assert (∀ id, id ∈ inputs ↔
                ∃ i, appointmentInputs b !! id = Some i ∧ required i = true ∧
                     formStep i = Some (Z.to_nat (currentAppointmentStep b)))
    as Hsel.
  { intros id. unfold inputs. rewrite list_elem_of_fmap. split.
    - intros ([id' i] & -> & Hin).
      apply list_elem_of_filter in Hin as [[Hr Hf] Hin].
      apply elem_of_map_to_list in Hin. by exists i.
    - intros (i & Hi & Hr & Hf). exists (id, i). split; [done|].
      apply list_elem_of_filter. split; [done|]. by apply elem_of_map_to_list. }
  destruct (forEachAppointmentInput_run inputs true b) as (els' & Hrun & Hels).
  { intros id (i & Hi & _)%Hsel. by rewrite Hi. }
  rewrite (hbind_run _ _ _ _ _ Hrun). simpl andb. f_equal.
  - f_equal. unfold inputs, anyAppointmentInputEmpty.
    apply forallb_passes_selected.
    intros [id i] Hin. by apply elem_of_map_to_list in Hin.
  - f_equal. apply map_eq. intros id. rewrite Hels, lookup_fmap.
    destruct (appointmentInputs b !! id) as [i|] eqn:Hi; [|done].
    simpl. f_equal. unfold markAppointmentStep, appointmentFeedback.
    assert (id ∈ inputs ↔
            required i = true ∧
            formStep i = Some (Z.to_nat (currentAppointmentStep b))) as Hiff.
    { rewrite Hsel. split.
      - intros (j & Hj & Hr & Hf). by assert (j = i) as <- by congruence.
      - intros [Hr Hf]. by exists i. }
    rewrite (bool_decide_ext _ _ Hiff).
    case_bool_decide as Hreq; [|done]. destruct Hreq as [-> _]. done.
Qed.

Lemma setAppointmentStepClass_run i on b :
  0 ≤ i < Z.of_nat (length (appointmentSteps b)) →
  setAppointmentStepClass i on b =
  (Normal tt,
   set_appointmentSteps (<[Z.to_nat i := mkFormStep on]> (appointmentSteps b)) b).
Proof.
  intros Hi. unfold setAppointmentStepClass.
  by destruct (array_get_in_bounds (appointmentSteps b) i Hi) as [x ->].
Qed.

Lemma moveAppointmentStep_run nextStep b :
  bookingInBounds b →
  moveAppointmentStep nextStep b =
  (Normal tt,
   if (0 <=? nextStep) && (nextStep <? Z.of_nat (length (appointmentSteps b)))
   then bookingMovedTo nextStep b else b).
Proof.
  intros Hb. unfold moveAppointmentStep. rewrite hgets_bind.
  destruct (_ && _) eqn:Hguard; [|done].
  apply andb_true_iff in Hguard as [H0%Z.leb_le H1%Z.ltb_lt].
  rewrite hgets_bind.
  rewrite (hbind_run _ _ _ _ _ (setAppointmentStepClass_run _ _ _ Hb)).
  rewrite hmodify_bind, hgets_bind.
  rewrite setAppointmentStepClass_run
    by (simpl; rewrite length_insert; lia).
  done.
Qed.

Lemma bookingMovedTo_inBounds nextStep b :
  0 ≤ nextStep < Z.of_nat (length (appointmentSteps b)) →
  bookingInBounds (bookingMovedTo nextStep b).
Proof. unfold bookingInBounds. simpl. by rewrite !length_insert. Qed.

(** What the three handlers do on a booking whose wizard is in bounds. *)
Lemma navigateAppointmentStep_next_run b :
  bookingInBounds b →
  navigateAppointmentStep 1 b =
  (Normal tt,
   let b1 := set_appointmentInputs
               (markAppointmentStep (currentAppointmentStep b)
                  <$> appointmentInputs b) b in
   if anyAppointmentInputEmpty b then
     emitAppointment
       (Alert "Please fill in the required field before proceeding.") b1
   else if currentAppointmentStep b + 1 <? Z.of_nat (length (appointmentSteps b))
        then bookingMovedTo (currentAppointmentStep b + 1) b1
        else b1).
Proof.
  intros Hb. unfold navigateAppointmentStep. rewrite hgets_bind.
  simpl (1 =? 1). cbv iota.
  rewrite appointment_validation_run by done. cbv zeta.
  destruct (anyAppointmentInputEmpty b); cbn [negb]; [done|].
  rewrite moveAppointmentStep_run by done. simpl.
  replace (0 <=? currentAppointmentStep b + 1) with true
    by (symmetry; apply Z.leb_le; unfold bookingInBounds in Hb; lia).
  done.
Qed.

Lemma navigateAppointmentStep_prev_run b :
  bookingInBounds b →
  navigateAppointmentStep (-1) b =
  (Normal tt,
   if 0 <=? currentAppointmentStep b - 1
   then bookingMovedTo (currentAppointmentStep b - 1) b else b).
Proof.
  intros Hb. unfold navigateAppointmentStep. rewrite hgets_bind.
  simpl (-1 =? 1). cbv iota.
  rewrite moveAppointmentStep_run by done.
  replace (currentAppointmentStep b + -1) with (currentAppointmentStep b - 1)
    by lia.
  replace (currentAppointmentStep b - 1 <? Z.of_nat (length (appointmentSteps b)))
    with true
    by (symmetry; apply Z.ltb_lt; unfold bookingInBounds in Hb; lia).
  by rewrite andb_true_r.
Qed.

Lemma appointmentForm_submit_run b :
  bookingInBounds b →
  appointmentForm_submit b =
  (Normal tt,
   let marked := markAppointmentStep (currentAppointmentStep b)
                   <$> appointmentInputs b in
   if anyAppointmentInputEmpty b then
     emitAppointment
       (Alert "Please fill in the required field before submitting.")
       (set_appointmentInputs marked b)
   else
     mkBooking 0
       (<[0%nat := mkFormStep true]>
          (<[Z.to_nat (currentAppointmentStep b) := mkFormStep false]>
             (appointmentSteps b)))
       (reset_input <$> marked)
       (appointmentEffects b ++
          [ShowMessage "appointmentForm"
             "Booking Confirmed! A representative will contact you shortly."
             false])).
Proof.
  intros Hb. unfold appointmentForm_submit. rewrite hgets_bind.
  rewrite appointment_validation_run by done. cbv zeta.
  destruct (anyAppointmentInputEmpty b); cbn [negb]; [done|].
  unfold showAppointmentMessage. simpl String.eqb. cbv iota.
  unfold mbind at 1, Handler_bind at 1.
  unfold mbind at 1, Handler_bind at 1, hmodify at 1. cbn [negb].
  unfold hmodify at 1. cbv beta iota.
  rewrite hgets_bind.
  rewrite (hbind_run _ _ _ tt _)
    by (by apply setAppointmentStepClass_run).
  rewrite hmodify_bind, hgets_bind.
  rewrite setAppointmentStepClass_run
    by (simpl; rewrite length_insert; unfold bookingInBounds in Hb; lia).
  done.
Qed.

Lemma handleBooking_wizard e b :
  bookingInBounds b →
  (currentAppointmentStep (handleBooking e b) = currentAppointmentStep b ∧
   appointmentSteps (handleBooking e b) = appointmentSteps b) ∨
  (∃ nextStep,
     0 ≤ nextStep < Z.of_nat (length (appointmentSteps b)) ∧
     currentAppointmentStep (handleBooking e b) = nextStep ∧
     appointmentSteps (handleBooking e b) =
       <[Z.to_nat nextStep := mkFormStep true]>
         (<[Z.to_nat (currentAppointmentStep b) := mkFormStep false]>
            (appointmentSteps b))).
Proof.
  intros Hb. pose proof Hb as [Hlo Hhi].
  destruct e as [id text| | |]; simpl.
  - by left.
  - rewrite navigateAppointmentStep_next_run by done. cbv zeta. simpl.
    destruct (anyAppointmentInputEmpty b); [by left|].
    destruct (_ <? _) eqn:Hlt; [|by left].
    apply Z.ltb_lt in Hlt. right.
    exists (currentAppointmentStep b + 1). split_and!; try done. lia.
  - rewrite navigateAppointmentStep_prev_run by done. simpl.
    destruct (0 <=? _) eqn:Hge; [|by left].
    apply Z.leb_le in Hge. right.
    exists (currentAppointmentStep b - 1). split_and!; try done. lia.
  - rewrite appointmentForm_submit_run by done. cbv zeta. simpl.
    destruct (anyAppointmentInputEmpty b); [by left|].
    right. exists 0. split_and!; try done. lia.
Qed.

Lemma handleBooking_frame e b :
  bookingInBounds b →
  bookingInBounds (handleBooking e b) ∧
  length (appointmentSteps (handleBooking e b)) = length (appointmentSteps b) ∧
  (activeOnlyAt (currentAppointmentStep b) (appointmentSteps b) →
   activeOnlyAt (currentAppointmentStep (handleBooking e b))
                (appointmentSteps (handleBooking e b))).
Proof.
  intros Hb. unfold bookingInBounds in *.
  destruct (handleBooking_wizard e b Hb)
    as [(-> & ->)|(nextStep & Hn & -> & ->)]; [done|].
  rewrite !length_insert. split_and!; [lia..|done|].
  apply activeOnlyAt_move.
Qed.

Lemma runBooking_frame es b :
  bookingInBounds b →
  bookingInBounds (runBooking es b) ∧
  length (appointmentSteps (runBooking es b)) = length (appointmentSteps b) ∧
  (activeOnlyAt (currentAppointmentStep b) (appointmentSteps b) →
   activeOnlyAt (currentAppointmentStep (runBooking es b))
                (appointmentSteps (runBooking es b))).
Proof.
  revert b. induction es as [|e es IH]; intros b Hb; [done|].
  change (runBooking (e :: es) b) with (runBooking es (handleBooking e b)).
  destruct (handleBooking_frame e b Hb) as (Hb' & Hl & Hact).
  destruct (IH _ Hb') as (Hb'' & Hl' & Hact').
  split_and!; [done|congruence|auto].
Qed.

(** X12: a click on a next button of the appointment form, on a booking
    whose wizard is in bounds, never stops with a [TypeError] and always
    marks the required inputs of the current step, red when empty and
    plain when filled.  If one of them is empty it alerts and the wizard
    stays as it is; otherwise there is no alert and the wizard moves one
    step forward when a next step exists and stays on the last step. *)
Theorem appointment_next_validates_then_moves (b : Booking) :
  bookingInBounds b →
  let r := navigateAppointmentStep 1 b in
  let cur := currentAppointmentStep b in
  let n := Z.of_nat (length (appointmentSteps b)) in
  r.1 = Normal tt ∧
  appointmentInputs r.2 = markAppointmentStep cur <$> appointmentInputs b ∧
  if anyAppointmentInputEmpty b then
    currentAppointmentStep r.2 = cur ∧
    appointmentSteps r.2 = appointmentSteps b ∧
    appointmentEffects r.2 =
      appointmentEffects b ++
      [Alert "Please fill in the required field before proceeding."]
  else
    appointmentEffects r.2 = appointmentEffects b ∧
    currentAppointmentStep r.2 = (if cur + 1 <? n then cur + 1 else cur) ∧
    appointmentSteps r.2 =
      (if cur + 1 <? n
       then <[Z.to_nat (cur + 1) := mkFormStep true]>
              (<[Z.to_nat cur := mkFormStep false]> (appointmentSteps b))
       else appointmentSteps b).
Proof.
  intros Hb. cbv zeta. rewrite navigateAppointmentStep_next_run by done.
  cbv zeta. simpl.
  destruct (anyAppointmentInputEmpty b); [done|].
  by destruct (_ <? _).
Qed.

(** X13: going back in the appointment form is never validated.  On a
    booking whose wizard is in bounds, a click on a previous button never
    stops with a [TypeError], reads and marks no input and raises no
    alert, whatever the inputs hold; it moves the wizard one step back
    when [currentAppointmentStep - 1 >= 0] and leaves the booking exactly
    as it is on step 0. *)
Theorem appointment_prev_never_validates (b : Booking) :
  bookingInBounds b →
  let r := navigateAppointmentStep (-1) b in
  let cur := currentAppointmentStep b in
  r.1 = Normal tt ∧
  appointmentInputs r.2 = appointmentInputs b ∧
  appointmentEffects r.2 = appointmentEffects b ∧
  currentAppointmentStep r.2 = (if 0 <=? cur - 1 then cur - 1 else cur) ∧
  (cur = 0 → r.2 = b).
Proof.
  intros Hb. cbv zeta. rewrite navigateAppointmentStep_prev_run by done.
  simpl. destruct (0 <=? _) eqn:Hge; split_and!; try done.
  intros H0. rewrite H0 in Hge. done.
Qed.

(** X14: the appointment form is submitted from whatever step is current,
    on the required inputs of that step alone.  On a booking whose wizard
    is in bounds the handler never stops with a [TypeError].  If a
    required input of the current step is empty it alerts, marks the
    inputs of the step and keeps the step and every text.  Otherwise it
    shows the confirmation, puts the wizard back on step 0 and resets
    every input of the form to its default value. *)
Theorem appointment_submit_confirms_or_alerts (b : Booking) :
  bookingInBounds b →
  let r := appointmentForm_submit b in
  let cur := currentAppointmentStep b in
  r.1 = Normal tt ∧
  if anyAppointmentInputEmpty b then
    currentAppointmentStep r.2 = cur ∧
    appointmentSteps r.2 = appointmentSteps b ∧
    appointmentInputs r.2 = markAppointmentStep cur <$> appointmentInputs b ∧
    appointmentEffects r.2 =
      appointmentEffects b ++
      [Alert "Please fill in the required field before submitting."]
  else
    currentAppointmentStep r.2 = 0 ∧
    appointmentSteps r.2 =
      <[0%nat := mkFormStep true]>
        (<[Z.to_nat cur := mkFormStep false]> (appointmentSteps b)) ∧
    (∀ id, value <$> appointmentInputs r.2 !! id =
           defaultValue <$> appointmentInputs b !! id) ∧
    appointmentEffects r.2 =
      appointmentEffects b ++
      [ShowMessage "appointmentForm"
         "Booking Confirmed! A representative will contact you shortly." false].
Proof.
  intros Hb. cbv zeta. rewrite appointmentForm_submit_run by done.
  cbv zeta. simpl.
  destruct (anyAppointmentInputEmpty b); [done|].
  split_and!; try done.
  intros id. simpl. rewrite !lookup_fmap.
  destruct (appointmentInputs b !! id) as [i|]; [|done]. simpl.
  unfold markAppointmentStep. by case_bool_decide.
Qed.

(** X15: the appointment wizard stays in bounds, and the step shown is
    the current step.  From a booking with
    [0 <= currentAppointmentStep < appointmentSteps.length], every
    sequence of events (edits, next, previous, submit) leads to a booking
    in bounds with as many steps; and if exactly the current step carried
    the ['active'] class before, exactly the current step carries it
    after. *)
Theorem appointment_wizard_invariants (es : list BookingEvent) (b : Booking) :
  bookingInBounds b →
  bookingInBounds (runBooking es b) ∧
  length (appointmentSteps (runBooking es b)) = length (appointmentSteps b) ∧
  (activeOnlyAt (currentAppointmentStep b) (appointmentSteps b) →
   activeOnlyAt (currentAppointmentStep (runBooking es b))
                (appointmentSteps (runBooking es b))).
Proof. apply runBooking_frame. Qed.

(** ** The observers *)

(** X16: the scroll observer only ever adds the ['animate'] class.  After
    its callback an element carries the class exactly when it carried it
    before or some entry reports it as intersecting. *)
Theorem scroll_callback_animates_intersecting
    {Num} (entries : list (Entry Num)) (animated : gset nat) (x : nat) :
  x ∈ scrollObserverCallback entries animated ↔
  x ∈ animated ∨ ∃ e, e ∈ entries ∧ isIntersecting e = true ∧ target e = x.
Proof.
  unfold scrollObserverCallback. revert animated.
  induction entries as [|e entries IH]; intros animated; simpl.
  { split; [by left|]. intros [?|(e & He & _)]; [done|]. by apply elem_of_nil in He. }
  rewrite IH. split.
  - intros [Hx|(e' & Hin & Hint & Ht)].
    + destruct (isIntersecting e) eqn:He; [|by left].
      apply elem_of_union in Hx as [Hx%elem_of_singleton|Hx]; [|by left].
      right. exists e. split_and!; [by left|done|done].
    + right. exists e'. split_and!; [by right|done|done].
  - intros [Hx|(e' & Hin & Hint & Ht)].
    + left. destruct (isIntersecting e); [|done]. apply elem_of_union. by right.
    + apply elem_of_cons in Hin as [->|Hin].
      * left. rewrite Hint. apply elem_of_union. left. by apply elem_of_singleton.
      * right. by exists e'.
Qed.

Lemma foldl_considerEntry_None {Num} (gt lt : Num → Num → bool) half all l acc :
  foldl (considerEntry gt lt half all) acc l = None ↔
  acc = None ∧ ∀ e, e ∈ l → isIntersecting e = false.
Proof.
  revert acc. induction l as [|e l IH]; intros acc; simpl.
  { split; [|by intros [-> _]]. intros ->. split; [done|].
    intros e He. by apply elem_of_nil in He. }
  rewrite IH. unfold considerEntry. split.
  - intros [Hacc Hl]. destruct (isIntersecting e) eqn:He.
    + destruct (_ || _) eqn:Hc; [done|]. subst acc. done.
    + split; [done|]. intros e' [->|Hin]%elem_of_cons; auto.
  - intros [-> Hl]. rewrite (Hl e) by left. split; [done|].
    intros e' Hin. apply Hl. by right.
Qed.

Lemma foldl_considerEntry_Some {Num} (gt lt : Num → Num → bool) half all l acc a :
  foldl (considerEntry gt lt half all) acc l = Some a →
  acc = Some a ∨ ∃ e, e ∈ l ∧ isIntersecting e = true ∧ targetId e = a.
Proof.
  revert acc. induction l as [|e l IH]; intros acc; simpl; [by left|].
  intros [Hacc|(e' & Hin & Hint & Hid)]%IH.
  - unfold considerEntry in Hacc. destruct (isIntersecting e) eqn:He; [|by left].
    destruct (_ || _); [|by left].
    right. exists e. split_and!; [by left|done|congruence].
  - right. exists e'. split_and!; [by right|done|done].
Qed.

Lemma foldl_considerEntry_idle {Num} (gt lt : Num → Num → bool) half all l acc :
  (∀ e, e ∈ l → isIntersecting e = false) →
  foldl (considerEntry gt lt half all) acc l = acc.
Proof.
  revert acc. induction l as [|e l IH]; intros acc Hl; simpl; [done|].
  rewrite IH by (intros e' He'; apply Hl; by right).
  unfold considerEntry. by rewrite (Hl e) by left.
Qed.

(** X17: the id the nav observer settles on is that of an intersecting
    entry.  It is [null] exactly when no entry of the batch intersects, and
    otherwise it is the [target.id] of some intersecting entry of the
    batch, whatever the ratios and positions are. *)
Theorem active_id_is_an_intersecting_entry
    {Num} (gt lt : Num → Num → bool) (halfHeight : Num)
    (entries : list (Entry Num)) :
  (pickActiveId gt lt halfHeight entries = None ↔
   ∀ e, e ∈ entries → isIntersecting e = false) ∧
  (∀ a, pickActiveId gt lt halfHeight entries = Some a →
        ∃ e, e ∈ entries ∧ isIntersecting e = true ∧ targetId e = a).
Proof.
  unfold pickActiveId. split.
  - rewrite foldl_considerEntry_None. split; [by intros [_ ?]|by intros ?].
  - intros a [?|?]%foldl_considerEntry_Some; [done|done].
Qed.

(** X18: which entry wins.  An intersecting entry after which no entry of
    the batch intersects gives the active id when no entry before it
    intersects either, or when its top lies above the middle of the
    window. *)
Theorem last_intersecting_entry_wins
    {Num} (gt lt : Num → Num → bool) (halfHeight : Num)
    (before after : list (Entry Num)) (e : Entry Num) :
  isIntersecting e = true →
  (∀ x, x ∈ after → isIntersecting x = false) →
  (∀ x, x ∈ before → isIntersecting x = false) ∨
  lt (boundingTop e) halfHeight = true →
  pickActiveId gt lt halfHeight (before ++ e :: after) = Some (targetId e).
Proof.
  intros He Hafter Hwhy. unfold pickActiveId.
  rewrite foldl_app. simpl. rewrite foldl_considerEntry_idle by done.
  unfold considerEntry at 1. rewrite He.
  destruct Hwhy as [Hbefore|Htop].
  - rewrite foldl_considerEntry_idle by done. done.
  - rewrite Htop. by rewrite orb_true_r.
Qed.

Lemma highlightLinks_run (substring1 : string → string) activeId links :
  (∀ link, link ∈ links → is_Some (href link)) →
  (highlightLinks substring1 activeId links).1 = Normal tt ∧
  map href (highlightLinks substring1 activeId links).2 = map href links ∧
  ∀ link, link ∈ (highlightLinks substring1 activeId links).2 →
    linkActive link =
    match activeId, href link with
    | Some a, Some h => String.eqb (substring1 h) a
    | _, _ => false
    end.
Proof.
  induction links as [|link links IH]; intros Hall; simpl.
  { split_and!; try done. intros link Hin. by apply elem_of_nil in Hin. }
  destruct (Hall link) as [h Hh]; [by left|]. rewrite Hh. simpl.
  destruct IH as (Hn & Hhref & Hact).
  { intros l Hl. apply Hall. by right. }
  split_and!; [done|by rewrite Hhref|].
  intros l [->|Hl]%elem_of_cons; [|by apply Hact].
  simpl. by destruct activeId.
Qed.

(** X19: what the nav observer does to the links, when every link has an
    [href].  The callback completes, keeps the links and their [href]s,
    and a link ends up active exactly when [href.substring(1)] is the
    active id, whether it was active before or not; when no entry of the
    batch intersects, no link is active.  This holds for [substring] as
    the language defines it, of which nothing is assumed. *)
Theorem nav_callback_highlights_active_link
    (substring1 : string → string)
    {Num} (gt lt : Num → Num → bool) (halfHeight : Num)
    (entries : list (Entry Num)) (links : list NavLink) :
  (∀ link, link ∈ links → is_Some (href link)) →
  let r := navObserverCallback substring1 gt lt halfHeight entries links in
  r.1 = Normal tt ∧
  map href r.2 = map href links ∧
  (∀ link, link ∈ r.2 →
     (linkActive link = true ↔
      ∃ h, href link = Some h ∧
           pickActiveId gt lt halfHeight entries = Some (substring1 h))) ∧
  ((∀ e, e ∈ entries → isIntersecting e = false) →
   ∀ link, link ∈ r.2 → linkActive link = false).
Proof.
  intros Hall. cbv zeta. unfold navObserverCallback.
  destruct (highlightLinks_run substring1
              (pickActiveId gt lt halfHeight entries) links Hall)
    as (Hn & Hhref & Hact).
  split_and!; [done|done| |].
  - intros link Hin. rewrite (Hact link Hin).
    destruct (pickActiveId _ _ _ _) as [a|], (href link) as [h|]; split;
      try done; try by intros (? & ? & ?).
    + intros Heq%String.eqb_eq. exists h. by rewrite Heq.
    + intros (h' & [= <-] & [= <-]). apply String.eqb_refl.
  - intros Hnone link Hin. rewrite (Hact link Hin).
    assert (pickActiveId gt lt halfHeight entries = None) as ->; [|done].
    unfold pickActiveId. by apply foldl_considerEntry_None.
Qed.

(** X20: a link without [href] stops the nav observer.  When the links
    before it all have an [href], the callback stops with a [TypeError] at
    that link: the links before it are updated, the link itself has lost
    the ['active'] class, and the links after it are left as they were. *)
Theorem link_without_href_stops_highlighting
    (substring1 : string → string)
    (activeId : option string) (before after : list NavLink) (link : NavLink) :
  (∀ l, l ∈ before → is_Some (href l)) →
  href link = None →
  highlightLinks substring1 activeId (before ++ link :: after) =
  (TypeError,
   (highlightLinks substring1 activeId before).2 ++
   mkNavLink None false :: after).
Proof.
  intros Hall Hnone. induction before as [|l before IH]; simpl.
  { by rewrite Hnone. }
  destruct (Hall l) as [h Hh]; [by left|]. rewrite Hh. simpl.
  rewrite IH by (intros l' Hl'; apply Hall; by right). done.
Qed.

(** ** The further properties at concrete pages *)

Lemma loadedPage_active_only_current : activeOnlyCurrent loadedPage.
Proof.
  intros i st Hi. destruct i as [|[|i]]; simpl in Hi; by simplify_eq.
Qed.

Lemma duplicate_submission_changes_nothing_witness :
  let s := pageOnStep1 seedUsers "USER@Example.com" "x" "pw" "pw" in
  let r := signupForm_submit string_toLowerCase s in
  r.1 = Normal DuplicateEmail ∧ registeredUsers r.2 = registeredUsers s ∧
  elements r.2 = elements s.
Proof.
  intros s r.
  assert (formHolds s "USER@Example.com" "x" "pw" "pw") as Hform
    by (by vm_compute).
  assert (isEmailAlreadyRegistered string_toLowerCase (registeredUsers s)
            "USER@Example.com" = true) as Hdup by (by vm_compute).
  destruct (duplicate_submission_changes_nothing string_toLowerCase s
              "USER@Example.com" "x" "pw" Hform Hdup)
    as (Hout & Hu & _ & _ & Hels & _).
  split_and!; [exact Hout | exact Hu | exact Hels].
Defined.

Lemma successful_submission_clears_form_witness :
  let s := pageOnStep1 seedUsers "new@x.com" "new" "abc" "abc" in
  let r := signupForm_submit string_toLowerCase s in
  fieldValue r.2 "reg-email" = Some "" ∧
  border <$> elements r.2 !! "reg-password" = Some "1px solid #ced4da".
Proof.
  intros s r.
  assert (wizardInBounds s) as Hb by (unfold wizardInBounds; simpl; lia).
  assert (formHolds s "new@x.com" "new" "abc" "abc") as Hform by (by vm_compute).
  assert (isEmailAlreadyRegistered string_toLowerCase (registeredUsers s)
            "new@x.com" = false) as Hfresh by (by vm_compute).
  destruct (successful_submission_clears_form string_toLowerCase s
              "new@x.com" "new" "abc" Hb Hform Hfresh)
    as (Hval & _ & _ & Hborder & _).
  split; [exact (Hval "reg-email") | exact Hborder].
Defined.

Lemma submission_is_all_or_nothing_witness :
  let s := pageOnStep1 seedUsers "new@x.com" "new" "abc" "xyz" in
  let r := signupForm_submit string_toLowerCase s in
  (∃ identity,
     r.1 = Normal (Success identity) ∧
     registeredUsers r.2 = registeredUsers s ++ [identity] ∧
     isEmailAlreadyRegistered string_toLowerCase (registeredUsers s)
       (email identity) = false ∧
     currentSignupStep r.2 = 0) ∨
  ((∀ identity, r.1 ≠ Normal (Success identity)) ∧
   registeredUsers r.2 = registeredUsers s ∧
   currentSignupStep r.2 = currentSignupStep s ∧
   signupSteps r.2 = signupSteps s ∧
   ∀ id, fieldValue r.2 id = fieldValue s id).
Proof.
  intros s r.
  assert (wizardInBounds s) as Hb by (unfold wizardInBounds; simpl; lia).
  assert (signupForm_submit string_toLowerCase s = (r.1, r.2)) as Hrun
    by (by vm_compute).
  exact (submission_is_all_or_nothing string_toLowerCase s r.2 r.1 Hb Hrun).
Defined.

Lemma registered_email_stays_registered_witness :
  isEmailAlreadyRegistered string_toLowerCase
    (registeredUsers
       (run string_toLowerCase
          [NextClick; UserInput "reg-email" "a@b.c"; NextClick; Submit]
          loadedPage))
    "TEST@MAIL.COM" = true.
Proof.
  apply (registered_email_stays_registered string_toLowerCase _ loadedPage
           "test@mail.com" "TEST@MAIL.COM").
  - by vm_compute.
  - by vm_compute.
Defined.

Lemma active_step_is_current_step_witness :
  activeOnlyCurrent
    (run string_toLowerCase
       [UserInput "reg-email" "a@b.c"; UserInput "reg-username" "a"; NextClick;
        PrevClick; NextClick; Submit]
       loadedPage).
Proof.
  apply (active_step_is_current_step string_toLowerCase).
  - unfold wizardInBounds. simpl. lia.
  - exact loadedPage_active_only_current.
Defined.

Lemma navigate_there_and_back_witness :
  let there := navigateSignupStep 1 loadedPage in
  there.1 = Normal JsUndefined ∧
  currentSignupStep there.2 = 1 ∧
  navigateSignupStep (-1) there.2 = (Normal JsUndefined, loadedPage).
Proof.
  assert (wizardInBounds loadedPage) as Hb
    by (unfold wizardInBounds; simpl; lia).
  assert (0 ≤ currentSignupStep loadedPage + 1
          < Z.of_nat (length (signupSteps loadedPage))) as Hdir
    by (simpl; lia).
  destruct (navigate_there_and_back loadedPage 1 Hb
              loadedPage_active_only_current Hdir)
    as (_ & Hout & Hthere & _ & Hback).
  split_and!; [exact Hout | exact Hthere | exact Hback].
Defined.

Lemma next_click_marks_required_inputs_witness :
  let s := initialPage twoSteps (signupInputs "" "x" "" "") in
  let els := elements (nextStepBtn_click string_toLowerCase s).2 in
  border <$> els !! "reg-email" = Some "2px solid red" ∧
  border <$> els !! "reg-username" = Some "1px solid #ced4da" ∧
  border <$> els !! "reg-password" = Some "".
Proof.
  intros s els.
  assert (wizardInBounds s) as Hb by (unfold wizardInBounds; simpl; lia).
  assert (els = markStep (currentSignupStep s) <$> elements s) as Hels
    by exact (next_click_marks_required_inputs string_toLowerCase s Hb).
  clearbody els. subst els. by vm_compute.
Defined.

Lemma next_click_off_step0_never_queries_witness :
  let s := pageOnStep1 seedUsers "user@example.com" "x" "abc" "abc" in
  let r := nextStepBtn_click string_toLowerCase s in
  r.1 = Normal Advanced ∧ effects r.2 = [] ∧ registeredUsers r.2 = seedUsers.
Proof.
  intros s r.
  assert (wizardInBounds s) as Hb by (unfold wizardInBounds; simpl; lia).
  assert (currentSignupStep s ≠ 0) as Hne by done.
  exact (next_click_off_step0_never_queries string_toLowerCase s Hb Hne).
Defined.

Lemma registered_email_is_blocked_at_step0_witness :
  let s := pageOnStep1 seedUsers "New@X.com" "new" "abc" "abc" in
  let s1 := (signupForm_submit string_toLowerCase s).2 in
  let s2 := set_elements (signupInputs "NEW@x.COM" "again" "" "") s1 in
  let r := nextStepBtn_click string_toLowerCase s2 in
  r.1 = Normal (Blocked duplicate_email) ∧ currentSignupStep r.2 = 0.
Proof.
  intros s s1 s2 r.
  assert (signupForm_submit string_toLowerCase s =
          (Normal (Success (mkUser "New@X.com" "new" "abc")), s1)) as Hsub
    by (by vm_compute).
  assert (registeredUsers s1 `prefix_of` registeredUsers s2) as Hpre by done.
  assert (wizardInBounds s2) as Hb by (vm_compute; split; [by intros [=]|done]).
  assert (currentSignupStep s2 = 0) as H0 by (by vm_compute).
  assert (anyRequiredEmpty s2 = false) as Hfilled by (by vm_compute).
  assert (fieldValue s2 "reg-email" = Some "NEW@x.COM") as He by (by vm_compute).
  assert (string_toLowerCase "NEW@x.COM" =
          string_toLowerCase (email (mkUser "New@X.com" "new" "abc"))) as Hkey
    by (by vm_compute).
  destruct (registered_email_is_blocked_at_step0 string_toLowerCase s s1 s2 _
              "NEW@x.COM" Hsub Hpre Hb H0 Hfilled He Hkey) as (Hout & Hc & _).
  split; [exact Hout | exact Hc].
Defined.

Lemma email_past_the_gate_is_accepted_witness :
  let s := initialPage twoSteps (signupInputs "new@x.com" "new" "" "") in
  let s1 := (nextStepBtn_click string_toLowerCase s).2 in
  let s2 := set_elements (signupInputs "NEW@X.COM" "new" "abc" "abc") s1 in
  let r := signupForm_submit string_toLowerCase s2 in
  r.1 = Normal (Success (mkUser "NEW@X.COM" "new" "abc")) ∧
  registeredUsers r.2 = seedUsers ++ [mkUser "NEW@X.COM" "new" "abc"].
Proof.
  intros s s1 s2 r.
  assert (wizardInBounds s) as Hb by (unfold wizardInBounds; simpl; lia).
  assert (currentSignupStep s = 0) as H0 by done.
  assert (fieldValue s "reg-email" = Some "new@x.com") as He by (by vm_compute).
  assert (nextStepBtn_click string_toLowerCase s = (Normal Advanced, s1)) as Hnext
    by (by vm_compute).
  assert (registeredUsers s2 = registeredUsers s1) as Hdir by reflexivity.
  assert (wizardInBounds s2) as Hb2
    by (vm_compute; split; [intros [=]|reflexivity]).
  assert (formHolds s2 "NEW@X.COM" "new" "abc" "abc") as Hform
    by (vm_compute; repeat split; reflexivity).
  assert (string_toLowerCase "NEW@X.COM" = string_toLowerCase "new@x.com") as Hkey
    by (vm_compute; reflexivity).
  exact (email_past_the_gate_is_accepted string_toLowerCase s s1 s2
           "new@x.com" "NEW@X.COM" "new" "abc" Hb H0 He Hnext Hdir Hb2 Hform Hkey).
Defined.

Lemma appointment_next_validates_then_moves_witness :
  let b := bookingOnStep 0 "" "" "" in
  let r := navigateAppointmentStep 1 b in
  r.1 = Normal tt ∧
  currentAppointmentStep r.2 = 0 ∧
  appointmentEffects r.2 =
    [Alert "Please fill in the required field before proceeding."] ∧
  border <$> appointmentInputs r.2 !! "service" = Some "2px solid red".
Proof.
  intros b r.
  assert (bookingInBounds b) as Hb by (unfold bookingInBounds; simpl; lia).
  pose proof (appointment_next_validates_then_moves b Hb) as H.
  cbv zeta in H. destruct H as (Hout & Hels & Hcase).
  assert (anyAppointmentInputEmpty b = true) as Hempty
    by (vm_compute; reflexivity).
  rewrite Hempty in Hcase. destruct Hcase as (Hc & _ & He).
  split_and!; [exact Hout | exact Hc | exact He |].
  unfold r. rewrite Hels. vm_compute. reflexivity.
Defined.

Lemma appointment_prev_never_validates_witness :
  let b := bookingOnStep 1 "haircut" "" "" in
  let r := navigateAppointmentStep (-1) b in
  r.1 = Normal tt ∧
  appointmentInputs r.2 = appointmentInputs b ∧
  appointmentEffects r.2 = [] ∧
  currentAppointmentStep r.2 = 0.
Proof.
  intros b r.
  assert (bookingInBounds b) as Hb by (unfold bookingInBounds; simpl; lia).
  destruct (appointment_prev_never_validates b Hb) as (Hout & Hels & He & Hc & _).
  split_and!; [exact Hout | exact Hels | exact He | exact Hc].
Defined.

Lemma appointment_submit_confirms_or_alerts_witness :
  let b := bookingOnStep 1 "" "2026-01-01" "call me" in
  let r := appointmentForm_submit b in
  r.1 = Normal tt ∧
  currentAppointmentStep r.2 = 0 ∧
  value <$> appointmentInputs r.2 !! "date" = Some "".
Proof.
  intros b r.
  assert (bookingInBounds b) as Hb by (unfold bookingInBounds; simpl; lia).
  pose proof (appointment_submit_confirms_or_alerts b Hb) as H.
  cbv zeta in H. destruct H as (Hout & Hcase).
  assert (anyAppointmentInputEmpty b = false) as Hfilled
    by (vm_compute; reflexivity).
  rewrite Hfilled in Hcase. destruct Hcase as (Hc & _ & Hval & _).
  split_and!; [exact Hout | exact Hc | exact (Hval "date")].
Defined.

Lemma appointment_wizard_invariants_witness :
  let b := runBooking
             [BookingNext; BookingInput "service" "haircut"; BookingNext;
              BookingPrev; BookingPrev; BookingSubmit]
             (bookingOnStep 0 "" "" "") in
  bookingInBounds b ∧ length (appointmentSteps b) = 3%nat.
Proof.
  intros b.
  assert (bookingInBounds (bookingOnStep 0 "" "" "")) as Hb
    by (unfold bookingInBounds; simpl; lia).
  destruct (appointment_wizard_invariants
              [BookingNext; BookingInput "service" "haircut"; BookingNext;
               BookingPrev; BookingPrev; BookingSubmit]
              (bookingOnStep 0 "" "" "") Hb) as (Hin & Hlen & _).
  split; [exact Hin | exact Hlen].
Defined.

Lemma last_intersecting_entry_wins_witness :
  pickActiveId Z.gtb Z.ltb 400
    [mkEntry true 1%nat "about" 80 10; mkEntry true 2%nat "services" 20 300;
     mkEntry false 3%nat "contact" 0 900]
  = Some "services".
Proof.
  apply (last_intersecting_entry_wins Z.gtb Z.ltb 400
           [mkEntry true 1%nat "about" 80 10]
           [mkEntry false 3%nat "contact" 0 900]
           (mkEntry true 2%nat "services" 20 300)).
  - reflexivity.
  - intros x Hx. apply list_elem_of_singleton in Hx. by subst x.
  - right. reflexivity.
Defined.

Lemma nav_callback_highlights_active_link_witness :
  let r := navObserverCallback ascii_substring1 Z.gtb Z.ltb 400
             [mkEntry true 1%nat "about" 80 10]
             [mkNavLink (Some "#home") true; mkNavLink (Some "#about") false] in
  r.1 = Normal tt ∧
  map href r.2 = [Some "#home"; Some "#about"] ∧
  map linkActive r.2 = [false; true].
Proof.
  intros r.
  assert (∀ link, link ∈ [mkNavLink (Some "#home") true;
                          mkNavLink (Some "#about") false] →
                  is_Some (href link)) as Hall.
  { intros link Hin. apply elem_of_cons in Hin as [->|Hin]; [by eexists|].
    apply list_elem_of_singleton in Hin. subst link. by eexists. }
  destruct (nav_callback_highlights_active_link ascii_substring1 Z.gtb Z.ltb 400
              [mkEntry true 1%nat "about" 80 10] _ Hall) as (Hout & Hhref & _).
  split_and!; [exact Hout | exact Hhref | reflexivity].
Defined.

Lemma link_without_href_stops_highlighting_witness :
  highlightLinks ascii_substring1 (Some "about")
    [mkNavLink (Some "#about") false; mkNavLink None true;
     mkNavLink (Some "#home") true]
  = (TypeError,
     [mkNavLink (Some "#about") true; mkNavLink None false;
      mkNavLink (Some "#home") true]).
Proof.
  apply (link_without_href_stops_highlighting ascii_substring1 (Some "about")
           [mkNavLink (Some "#about") false] [mkNavLink (Some "#home") true]
           (mkNavLink None true)).
  - intros l Hl. apply list_elem_of_singleton in Hl. subst l. by eexists.
  - reflexivity.
Defined.
